(** * BCSD point-wise models: a shallow embedding of
      [xsd/pointwise_models/bcsd.py]

    The development follows the Python module top to bottom: the pandas
    operations it calls ([groupby], [mean], [min], [loc], [concat],
    [sort_index], [rolling], frame arithmetic), then [BcsdBase] with its
    three helpers, then [BcsdPrecipitation] and [BcsdTemperature].

    Modelling choices.
    - A series / one-column frame is the list of its rows, a row being a
      timestamp and a value.  The Time Series of the specification carry
      strictly increasing timestamps ([wf_series]).  Column labels are not
      modelled (one unnamed column).  Where the code tells a Series from a
      one-column DataFrame (the test of [BcsdPrecipitation.fit]) the
      argument is a [pandas_obj].
    - Values live in an arithmetic [Arith V]: the code only adds,
      subtracts, divides by a count and compares.  Nothing is assumed of
      these operations unless a theorem says so.  Two arithmetics are
      given: exact rationals, and the binary64 numbers the code computes
      with.  NaN handling ([skipna]) is not modelled.
    - Python exceptions are values of [exn]; a call that may raise returns
      a [result].  Methods that assign attributes of [self] take the model
      record and return the updated one.
    - [QuantileMapper] lives in [utils], which is not part of the sources
      at hand: it is a parameter of the development.  Its [fit] may
      raise. *)

From Stdlib Require Import QArith Qcanon.
From Stdlib Require Floats.PrimFloat Uint63.
From stdpp Require Import base numbers list gmap sorting strings.

(** ** Data *)

Abbreviation time := Z (only parsing).
Abbreviation key := Z (only parsing).

Definition index {V} (s : list (Z * V)) : list time := s.*1.
Definition values {V} (s : list (Z * V)) : list V := s.*2.

(** The Time Series of the data model: timestamps strictly increase, hence
    no timestamp occurs twice. *)
Definition wf_series {V} (s : list (Z * V)) : Prop :=
  StronglySorted Z.lt (index s).

(** A Series or a one-column DataFrame, with the same rows. *)
Inductive pandas_obj (V : Type) : Type :=
  | SeriesOf (rows : list (Z * V))
  | FrameOf (rows : list (Z * V)).
Arguments SeriesOf {V} rows.
Arguments FrameOf {V} rows.

Definition rows_of {V} (obj : pandas_obj V) : list (Z * V) :=
  match obj with
  | SeriesOf rows => rows
  | FrameOf rows => rows
  end.

(** ** Values *)

(** The arithmetic of the values: zero (the empty sum), sum, difference,
    quotient, a count of samples as a value, and the test [x <= y]. *)
Class Arith (V : Type) : Type := {
  v_zero : V;
  v_add : V → V → V;
  v_sub : V → V → V;
  v_div : V → V → V;
  v_count : nat → V;
  v_leb : V → V → bool
}.

(** The comparison is a total preorder: it is on rationals, and on
    binary64 numbers other than NaN. *)
Class ArithOrder (V : Type) `{Arith V} : Prop := {
  v_leb_total : ∀ x y : V, v_leb x y = true ∨ v_leb y x = true;
  v_leb_trans : ∀ x y z : V,
    v_leb x y = true → v_leb y z = true → v_leb x z = true
}.

(** Exact rationals. *)
#[global] Instance Qc_Arith : Arith Qc := {|
  v_zero := Qc_of_Z 0;
  v_add := Qcplus;
  v_sub := Qcminus;
  v_div := Qcdiv;
  v_count := λ n, Qc_of_Z (Z.of_nat n);
  v_leb := λ x y, bool_decide (x ≤ y)%Qc
|}.

(** binary64, as numpy's [float64]: the operations round to nearest. *)
Definition float64_of_Z (n : Z) : PrimFloat.float :=
  PrimFloat.of_uint63 (Uint63.of_Z n).

#[global] Instance float64_Arith : Arith PrimFloat.float := {|
  v_zero := float64_of_Z 0;
  v_add := PrimFloat.add;
  v_sub := PrimFloat.sub;
  v_div := PrimFloat.div;
  v_count := λ n, float64_of_Z (Z.of_nat n);
  v_leb := PrimFloat.leb
|}.

(** The rationals are totally ordered.  (binary64 is not: NaN compares
    with nothing.) *)
#[global] Instance Qc_ArithOrder : ArithOrder Qc.
Proof.
  split.
  - intros x y. simpl. rewrite !bool_decide_eq_true. apply (total Qcle).
  - intros x y z. simpl. rewrite !bool_decide_eq_true. apply Qcle_trans.
Qed.

(** ** Exceptions *)

Inductive exn : Type :=
  | KeyError (k : key)
  | ValueError (msg : string)
  | TypeError (msg : string)
  | AttributeError (attr : string)
  | AssertionError
  | Unmodelled.

Inductive result (A : Type) : Type :=
  | Ok (a : A)
  | Raise (e : exn).
Arguments Ok {A} a.
Arguments Raise {A} e.

#[global] Instance result_ret : MRet result := λ A a, Ok a.
#[global] Instance result_bind : MBind result := λ A B f r,
  match r with
  | Ok a => f a
  | Raise e => Raise e
  end.

Definition is_Ok {A} (r : result A) : Prop := ∃ a, r = Ok a.

(** ** The pandas operations used by the module *)

Module pd.

Section Operations.

Context {V : Type} `{!Arith V}.

(** Keys of a [groupby], in the order pandas iterates them (sorted, each
    once). *)
Definition group_keys (g : time → key) (s : list (Z * V)) : list key :=
  merge_sort Z.le (remove_dups (g <$> index s)).

(** Rows of [s] whose timestamp has period key [k], in the order of [s]. *)
Definition get_group (g : time → key) (s : list (Z * V)) (k : key)
    : list (Z * V) :=
  filter (λ r : Z * V, g r.1 = k) s.

(** [obj.groupby(grouper)] for a function [grouper], as the sequence of
    [(key, group)] it yields. *)
Definition groupby (g : time → key) (s : list (Z * V))
    : list (key * list (Z * V)) :=
  (λ k, (k, get_group g s k)) <$> group_keys g s.

(** Sum of the samples, accumulated from the first to the last.  (How
    pandas rounds a sum in binary64 depends on its kernel; the binary64
    samples below have sums that round alike in every order.) *)
Definition sum (l : list V) : V := foldl v_add v_zero l.

(** Arithmetic mean: the sum over the count.  (On no sample pandas yields
    NaN; no caller below reaches that case: groups and windows hold at
    least one sample.) *)
Definition mean (l : list V) : V := v_div (sum l) (v_count (length l)).

(** [groups.mean()]: one entry per key, in key order. *)
Definition groupby_mean (groups : list (key * list (Z * V)))
    : list (Z * V) :=
  (λ kg : key * list (Z * V), (kg.1, mean (values kg.2))) <$> groups.

Definition v_min (x y : V) : V := if v_leb x y then x else y.

(** [climo.min()] of a Series; [None] stands for the NaN pandas returns on
    an empty one. *)
Definition min (c : list (Z * V)) : option V :=
  match c.*2 with
  | [] => None
  | v :: vs => Some (foldl v_min v vs)
  end.

(** [m <= 0] for the result of [min]; a comparison with NaN is false. *)
Definition le_zero (m : option V) : bool :=
  match m with
  | Some v => v_leb v v_zero
  | None => false
  end.

(** [climatology.loc[key]] *)
Fixpoint loc (c : list (Z * V)) (k : key) : result V :=
  match c with
  | [] => Raise (KeyError k)
  | (k', v) :: c' => if decide (k' = k) then Ok v else loc c' k
  end.

(** [pd.DataFrame(data, index=idx)]: the lengths must agree. *)
Definition DataFrame (data : list V) (idx : list time)
    : result (list (Z * V)) :=
  if decide (length data = length idx) then Ok (zip idx data)
  else Raise (ValueError "Shape of passed values does not match the index").

(** [pd.concat(dfs)] refuses an empty list of frames. *)
Definition concat (dfs : list (list (Z * V))) : result (list (Z * V)) :=
  match dfs with
  | [] => Raise (ValueError "No objects to concatenate")
  | _ => Ok (mjoin dfs)
  end.

(** [df.sort_index()].  On distinct timestamps every sorting algorithm
    gives the same frame. *)
Definition index_le (a b : Z * V) : Prop := (a.1 ≤ b.1)%Z.
#[global] Instance index_le_dec : RelDecision index_le :=
  λ a b, Z.le_dec a.1 b.1.

Definition sort_index (s : list (Z * V)) : list (Z * V) :=
  merge_sort index_le s.

(** [group - c] for a scalar [c]. *)
Definition sub_scalar (s : list (Z * V)) (c : V) : list (Z * V) :=
  (λ r : Z * V, (r.1, v_sub r.2 c)) <$> s.

(** Value carried by label [t]. *)
Fixpoint at_label (s : list (Z * V)) (t : time) : option V :=
  match s with
  | [] => None
  | (t', v) :: s' => if decide (t' = t) then Some v else at_label s' t
  end.

(** [a - b] and [a + b] on frames.  pandas aligns the operands on their
    index.  With the same index this is the row-by-row operation.  With
    two arrangements of the same distinct labels the result sits on the
    sorted labels, each row combining the two values of its label.  Other
    operands (a label in one operand only, repeated labels in different
    order) are outside the model. *)
Definition binop (op : V → V → V) (a b : list (Z * V))
    : result (list (Z * V)) :=
  if decide (index a = index b)
  then Ok (zip_with (λ x y : Z * V, (x.1, op x.2 y.2)) a b)
  else if decide (NoDup (index a)
                  ∧ merge_sort Z.le (index a) = merge_sort Z.le (index b))
  then Ok (omap (λ t, x ← at_label a t; y ← at_label b t; Some (t, op x y))
                (merge_sort Z.le (index a)))
  else Raise Unmodelled.

Definition sub : list (Z * V) → list (Z * V) → result (list (Z * V)) :=
  binop v_sub.
Definition add : list (Z * V) → list (Z * V) → result (list (Z * V)) :=
  binop v_add.

(** [x.rolling(9, center=True, min_periods=1).mean()]: row [i] averages
    the rows [i-4 .. i+4] that exist.  Row [i] itself always does, so
    [min_periods=1] never blanks a value. *)
Definition rolling_window : nat := 9.
Definition center_offset : nat := (rolling_window - 1) / 2.

Definition window (l : list V) (i : nat) : list V :=
  take (S (i + center_offset) - (i - center_offset)) (drop (i - center_offset) l).

Definition rolling_mean (x : list (Z * V)) : list (Z * V) :=
  imap (λ i (r : Z * V), (r.1, mean (window (values x) i))) x.

(** [df.reindex(idx)] for labels that all occur in [df]. *)
Definition reindex (idx : list time) (s : list (Z * V)) : list (Z * V) :=
  omap (λ t, (λ v, (t, v)) <$> at_label s t) idx.

(** [obj.groupby(grouper).apply(f)] for an [f] that keeps the index of its
    argument: the per-group results are concatenated and put back on the
    index of [obj]. *)
Definition groupby_apply (g : time → key)
    (f : list (Z * V) → list (Z * V)) (obj : list (Z * V)) : list (Z * V) :=
  reindex (index obj) (mjoin ((λ kg : key * list (Z * V), f kg.2) <$> groupby g obj)).

(** [groupby_object / series].  A GroupBy object defines no arithmetic:
    the expression raises, whatever the operands.  The module records as
    much for the same expression with [-] (the comment above [X_shift] in
    [BcsdTemperature.predict]).  The class of the exception depends on the
    version of pandas; [TypeError] is that of the versions the module was
    written for. *)
Definition groupby_truediv (groups : list (key * list (Z * V)))
    (c : list (Z * V)) : result (list (Z * V)) :=
  Raise (TypeError "unsupported operand type(s) for /").

(** [bool(obj.min() <= 0)], the test of an [if].  The minimum of a Series
    is a scalar.  The minimum of a DataFrame is a Series, and the truth
    value of a Series raises. *)
Definition min_le_zero (obj : pandas_obj V) : result bool :=
  match obj with
  | SeriesOf c => Ok (le_zero (min c))
  | FrameOf c =>
      Raise (ValueError "The truth value of a Series is ambiguous")
  end.

End Operations.

End pd.

(** ** The module *)

Section Bcsd.

Context {V : Type} `{!Arith V}.

(** [utils.QuantileMapper]: constructed from keyword options; [fit]
    returns the fitted mapper or raises; [transform] maps a sample set. *)
Variable Kwargs : Type.
Variable Mapper : Type.
Variable qm_fit : Kwargs → list V → result Mapper.
Variable qm_transform : Mapper → list V → list V.

(** Calendar month of a timestamp, and [pd.Grouper(freq=...)] taken as the
    function from timestamps to period labels it stands for (the periods
    without sample that pandas also yields are not modelled). *)
Variable month : time → key.
Variable pd_Grouper : string → time → key.

(** Modelled from the spec: [utils.ensure_samples_features] is not among
    the sources; the specification has it present a group "as a
    one-column sample set".  A series of this model already is one. *)
Definition ensure_samples_features (obj : list (Z * V)) : list (Z * V) := obj.

Definition MONTH_GROUPER : time → key := month.

Inductive time_grouper : Type :=
  | GrouperFreq (freq : string)
  | GrouperFunc (f : time → key).

(** Attributes of a model instance.  [_x_climo] and [_y_climo] do not
    exist before [fit]. *)
Record BcsdBase : Type := mkBcsd {
  grouper_ : time → key;
  qm_kwargs : Kwargs;
  quantile_mappers_ : gmap Z Mapper;
  _x_climo : option (list (Z * V));
  _y_climo : option (list (Z * V))
}.

Definition set_quantile_mappers (d : gmap Z Mapper) (self : BcsdBase) :=
  mkBcsd (grouper_ self) (qm_kwargs self) d (_x_climo self) (_y_climo self).
Definition set_x_climo (c : list (Z * V)) (self : BcsdBase) :=
  mkBcsd (grouper_ self) (qm_kwargs self) (quantile_mappers_ self)
         (Some c) (_y_climo self).
Definition set_y_climo (c : list (Z * V)) (self : BcsdBase) :=
  mkBcsd (grouper_ self) (qm_kwargs self) (quantile_mappers_ self)
         (_x_climo self) (Some c).

Definition getattr {A} (name : string) (a : option A) : result A :=
  match a with
  | Some v => Ok v
  | None => Raise (AttributeError name)
  end.

Definition dict_getitem (d : gmap Z Mapper) (k : key) : result Mapper :=
  match d !! k with
  | Some v => Ok v
  | None => Raise (KeyError k)
  end.

(** [BcsdBase.__init__] *)
Definition __init__ (tg : time_grouper) (kw : Kwargs) : BcsdBase :=
  mkBcsd (match tg with
          | GrouperFreq freq => pd_Grouper freq
          | GrouperFunc f => f
          end) kw ∅ None None.

(** [BcsdBase._qm_fit_by_group]: one dictionary store per group, in the
    order the groups come.  When [QuantileMapper(...).fit] raises the loop
    ends there, with the stores made so far. *)
Fixpoint _qm_fit_by_group (self : BcsdBase)
    (groups : list (key * list (Z * V))) : BcsdBase * result unit :=
  match groups with
  | [] => (self, Ok tt)
  | (k, group) :: rest =>
      let data := ensure_samples_features group in
      match qm_fit (qm_kwargs self) (values data) with
      | Ok mapper =>
          _qm_fit_by_group
            (set_quantile_mappers (<[k := mapper]> (quantile_mappers_ self))
               self) rest
      | Raise e => (self, Raise e)
      end
  end.

(** The loop of [BcsdBase._qm_transform_by_group]: the frames appended to
    [dfs], or the first exception. *)
Fixpoint qm_transform_loop (self : BcsdBase)
    (groups : list (key * list (Z * V))) : result (list (list (Z * V))) :=
  match groups with
  | [] => Ok []
  | (k, group) :: rest =>
      let data := ensure_samples_features group in
      mapper ← dict_getitem (quantile_mappers_ self) k;
      df ← pd.DataFrame (qm_transform mapper (values data)) (index group);
      dfs ← qm_transform_loop self rest;
      Ok (df :: dfs)
  end.

Definition _qm_transform_by_group (self : BcsdBase)
    (groups : list (key * list (Z * V))) : result (list (Z * V)) :=
  dfs ← qm_transform_loop self groups;
  out ← pd.concat dfs;
  Ok (pd.sort_index out).

(** The loop of [BcsdBase._remove_climatology]. *)
Fixpoint remove_climatology_loop (groups : list (key * list (Z * V)))
    (climo : list (Z * V)) : result (list (list (Z * V))) :=
  match groups with
  | [] => Ok []
  | (k, group) :: rest =>
      c ← pd.loc climo k;
      dfs ← remove_climatology_loop rest climo;
      Ok (pd.sub_scalar group c :: dfs)
  end.

Definition _remove_climatology (self : BcsdBase) (obj : list (Z * V))
    (climo : list (Z * V)) : result (list (Z * V)) :=
  dfs ← remove_climatology_loop (pd.groupby (grouper_ self) obj) climo;
  cat ← pd.concat dfs;
  let out := pd.sort_index cat in
  if decide (length obj = length out) then Ok out else Raise AssertionError.

(** [BcsdPrecipitation.fit]: the updated instance and what the call
    returns ([Ok tt] stands for [return self]).  The climatology of a
    Series target is a Series, that of a DataFrame target a DataFrame. *)
Definition BcsdPrecipitation_fit (self : BcsdBase) (X : list (Z * V))
    (y : pandas_obj V) : BcsdBase * result unit :=
  let y_groups := pd.groupby (grouper_ self) (rows_of y) in
  let climo := pd.groupby_mean y_groups in
  let self := set_y_climo climo self in
  match pd.min_le_zero (match y with
                        | SeriesOf _ => SeriesOf climo
                        | FrameOf _ => FrameOf climo
                        end) with
  | Raise e => (self, Raise e)
  | Ok true =>
      (self, Raise (ValueError "Invalid value in target climatology"))
  | Ok false => _qm_fit_by_group self y_groups
  end.

(** [BcsdPrecipitation.predict] *)
Definition BcsdPrecipitation_predict (self : BcsdBase) (X : list (Z * V))
    : result (list (Z * V)) :=
  let X := ensure_samples_features X in
  Xqm ← _qm_transform_by_group self (pd.groupby (grouper_ self) X);
  y_climo ← getattr "_y_climo" (_y_climo self);
  pd.groupby_truediv (pd.groupby (grouper_ self) Xqm) y_climo.

(** [BcsdTemperature.fit].  Series and one-column DataFrame arguments
    behave alike here. *)
Definition BcsdTemperature_fit (self : BcsdBase) (X y : list (Z * V))
    : BcsdBase * result unit :=
  let self := set_x_climo
                (pd.groupby_mean (pd.groupby (grouper_ self) X)) self in
  let y_groups := pd.groupby (grouper_ self) y in
  let self := set_y_climo (pd.groupby_mean y_groups) self in
  _qm_fit_by_group self y_groups.

(** [BcsdTemperature.predict] *)
Definition rolling_func (x : list (Z * V)) : list (Z * V) :=
  pd.rolling_mean x.

Definition BcsdTemperature_predict (self : BcsdBase) (X : list (Z * V))
    : result (list (Z * V)) :=
  let X := ensure_samples_features X in
  let X_rolling_mean := pd.groupby_apply (grouper_ self) rolling_func X in
  x_climo ← getattr "_x_climo" (_x_climo self);
  X_shift ← _remove_climatology self X_rolling_mean x_climo;
  X_no_shift ← pd.sub X X_shift;
  Xqm ← _qm_transform_by_group self
          (pd.groupby (grouper_ self) X_no_shift);
  X_qm_with_shift ← pd.add Xqm X_shift;
  y_climo ← getattr "_y_climo" (_y_climo self);
  _remove_climatology self X_qm_with_shift y_climo.

End Bcsd.

Arguments BcsdBase V Kwargs Mapper : clear implicits.
Arguments mkBcsd {V Kwargs Mapper} _ _ _ _ _.
Arguments grouper_ {V Kwargs Mapper} _.
Arguments qm_kwargs {V Kwargs Mapper} _.
Arguments quantile_mappers_ {V Kwargs Mapper} _.
Arguments _x_climo {V Kwargs Mapper} _.
Arguments _y_climo {V Kwargs Mapper} _.
Arguments set_quantile_mappers {V Kwargs Mapper} d self.
Arguments set_x_climo {V Kwargs Mapper} c self.
Arguments set_y_climo {V Kwargs Mapper} c self.
Arguments dict_getitem {Mapper} d k.
Arguments __init__ V {Kwargs} Mapper pd_Grouper tg kw.
Arguments _qm_fit_by_group {V Kwargs Mapper} qm_fit self groups.
Arguments qm_transform_loop {V Kwargs Mapper} qm_transform self groups.
Arguments _qm_transform_by_group {V Kwargs Mapper} qm_transform self groups.
Arguments remove_climatology_loop {V _} groups climo.
Arguments _remove_climatology {V _ Kwargs Mapper} self obj climo.
Arguments BcsdPrecipitation_fit {V _ Kwargs Mapper} qm_fit self X y.
Arguments BcsdPrecipitation_predict {V Kwargs Mapper} qm_transform self X.
Arguments BcsdTemperature_fit {V _ Kwargs Mapper} qm_fit self X y.
Arguments BcsdTemperature_predict {V _ Kwargs Mapper} qm_transform self X.

(** ** Vocabulary of the specification *)

(** The rolling mean as the specification words it: a centered window of
    nine consecutive samples of the whole series, in timestamp order. *)
Definition spec_rolling_mean {V} `{!Arith V} (x : list (Z * V))
    : list (Z * V) :=
  imap (λ i (r : Z * V), (r.1, pd.mean (pd.window (values x) i))) x.

(** A climatology laid out on an index: each timestamp carries the value of
    its period key. *)
Fixpoint broadcast {V} (g : time → key) (climo : list (Z * V))
    (idx : list time) : result (list (Z * V)) :=
  match idx with
  | [] => Ok []
  | t :: idx' =>
      c ← pd.loc climo (g t);
      rest ← broadcast g climo idx';
      Ok ((t, c) :: rest)
  end.

(** The six steps of the temperature prediction, in the order the
    specification lists them, over a given rolling mean for step 1. *)
Definition spec_temperature_steps {V} `{!Arith V} {Kwargs Mapper}
    (qm_transform : Mapper → list V → list V)
    (rolling : list (Z * V) → list (Z * V))
    (self : BcsdBase V Kwargs Mapper) (x_climo y_climo : list (Z * V))
    (X_new : list (Z * V)) : result (list (Z * V)) :=
  let step1 := rolling X_new in
  shift ← _remove_climatology self step1 x_climo;
  de_shifted ← pd.sub X_new shift;
  quantile_mapped ← _qm_transform_by_group qm_transform self
                      (pd.groupby (grouper_ self) de_shifted);
  re_shifted ← pd.add quantile_mapped shift;
  _remove_climatology self re_shifted y_climo.

(** Every period key of [s] has an entry in [climo]. *)
Definition covers {V} (g : time → key) (climo s : list (Z * V)) : Prop :=
  ∀ r, r ∈ s → is_Ok (pd.loc climo (g r.1)).

(** Every period key of [s] has a fitted mapper. *)
Definition all_fitted {V Kwargs Mapper} (self : BcsdBase V Kwargs Mapper)
    (s : list (Z * V)) : Prop :=
  ∀ r, r ∈ s → is_Some (quantile_mappers_ self !! grouper_ self r.1).

(** What a second [fit] on the target [y2] leaves in the dictionary of an
    instance first fitted on [y1]: [first] and [second] are the instance
    after the first and after the second call. *)
Definition refit_keeps_mappers {V Kwargs Mapper}
    (qm_fit : Kwargs → list V → result Mapper)
    (qm_transform : Mapper → list V → list V)
    (first second : BcsdBase V Kwargs Mapper) (y1 y2 : list (Z * V)) : Prop :=
  let g := grouper_ first in
  let kw := qm_kwargs first in
  (∀ k, is_Some (quantile_mappers_ first !! k) →
        is_Some (quantile_mappers_ second !! k))
  ∧ (∀ k, k ∈ pd.group_keys g y2 →
          ∃ m, qm_fit kw (values (pd.get_group g y2 k)) = Ok m
               ∧ quantile_mappers_ second !! k = Some m)
  ∧ (∀ k, k ∈ pd.group_keys g y1 → k ∉ pd.group_keys g y2 →
          ∃ m, qm_fit kw (values (pd.get_group g y1 k)) = Ok m
               ∧ quantile_mappers_ second !! k = Some m)
  ∧ (∀ S : list (Z * V),
       wf_series S → S ≠ [] →
       (∀ r, r ∈ S → g r.1 ∈ pd.group_keys g y1 ∨ g r.1 ∈ pd.group_keys g y2) →
       is_Ok (_qm_transform_by_group qm_transform second
                (pd.groupby (grouper_ second) S))).

(** The entry of [climo] for [k], read as 0 where there is none. *)
Definition climo_at {V} `{!Arith V} (climo : list (Z * V)) (k : key) : V :=
  match pd.loc climo k with
  | Ok v => v
  | Raise _ => v_zero
  end.

Definition anomaly {V} `{!Arith V} (g : time → key) (climo : list (Z * V))
    (r : Z * V) : Z * V :=
  (r.1, v_sub r.2 (climo_at climo (g r.1))).

(** The comparison [<=] orders the values of [l] totally, among
    themselves and against 0.  It does so on rationals, and on binary64
    numbers as long as none is NaN. *)
Definition totally_ordered {V} `{!Arith V} (l : list V) : Prop :=
  (∀ x y, x ∈ l → y ∈ l → v_leb x y = true ∨ v_leb y x = true)
  ∧ (∀ x y, x ∈ l → y ∈ l →
       v_leb x y = true → v_leb y v_zero = true → v_leb x v_zero = true).

(** How a [fit] whose loop raised [e] leaves the instance: [before] is
    the instance as the loop found it, [after] as it left it.  The loop has
    completed over the groups that come before the one on which
    [QuantileMapper(...).fit] raised [e], and has stored their mappers. *)
Definition stopped_at_failing_group {V Kwargs Mapper}
    (qm_fit : Kwargs → list V → result Mapper)
    (before after : BcsdBase V Kwargs Mapper)
    (groups : list (Z * list (Z * V))) (e : exn) : Prop :=
  ∃ done_groups failing rest,
    groups = done_groups ++ failing :: rest
    ∧ qm_fit (qm_kwargs before) (values failing.2) = Raise e
    ∧ _qm_fit_by_group qm_fit before done_groups = (after, Ok tt).

(** ** Sample instances

    Quantile mappers to run the model on: one whose [transform] returns
    its argument, one that doubles every value; a [fit] that always
    returns.  Timestamps
    count months; the period key of a timestamp is its month of the
    year. *)

Definition Q_ (n : Z) : Qc := Qc_of_Z n.

Definition identity_fit {V} (_ : unit) (_ : list V) : result unit := Ok tt.
Definition identity_transform {V} (_ : unit) (d : list V) : list V := d.
Definition doubling_transform (_ : unit) (d : list Qc) : list Qc :=
  (λ v, (v + v)%Qc) <$> d.

Definition month_of_year (t : time) : key := (t mod 12 + 1)%Z.
Definition no_freq (_ : string) (t : time) : key := t.

(** A fresh instance grouping by month of the year. *)
Definition fresh : BcsdBase Qc unit unit :=
  __init__ Qc unit no_freq (GrouperFunc month_of_year) tt.

(** January and February of three consecutive years. *)
Definition X_sample : list (Z * Qc) :=
  [(0, Q_ 1); (1, Q_ 100); (12, Q_ 3); (13, Q_ 200); (24, Q_ 8); (25, Q_ 300)]%Z.
Definition y_sample : list (Z * Qc) :=
  [(0, Q_ 9); (1, Q_ 10); (12, Q_ 10); (13, Q_ 12); (24, Q_ 11); (25, Q_ 14)]%Z.

(** The two models fitted on the samples.  The target has climatology 10
    in January and 12 in February. *)
Definition fitted_T : BcsdBase Qc unit unit :=
  (BcsdTemperature_fit identity_fit fresh X_sample y_sample).1.
Definition fitted_P : BcsdBase Qc unit unit :=
  (BcsdPrecipitation_fit identity_fit fresh X_sample (SeriesOf y_sample)).1.

Definition x_climo_sample : list (Z * Qc) :=
  pd.groupby_mean (pd.groupby month_of_year X_sample).
Definition y_climo_sample : list (Z * Qc) :=
  pd.groupby_mean (pd.groupby month_of_year y_sample).

(** A target without rain in January. *)
Definition y_dry_january : list (Z * Qc) :=
  [(0, Q_ 0); (1, Q_ 10); (12, Q_ 0); (13, Q_ 12)]%Z.

(** One sample in February and one in March, a month the samples above
    never show. *)
Definition X_february : list (Z * Qc) := [(1, Q_ 6)]%Z.
Definition X_march : list (Z * Qc) := [(1, Q_ 6); (2, Q_ 7)]%Z.

(** One sample in January; and the temperature model above fitted a second
    time, on a training pair that shows February and March only. *)
Definition X_january : list (Z * Qc) := [(0, Q_ 5)]%Z.
Definition refitted_T : BcsdBase Qc unit unit :=
  (BcsdTemperature_fit identity_fit fitted_T X_march X_march).1.

(** Values of a result as plain fractions, for comparison by
    computation. *)
Definition fractions (r : result (list (Z * Qc))) : result (list (Z * Q)) :=
  match r with
  | Ok s => Ok ((λ r : Z * Qc, (r.1, this r.2)) <$> s)
  | Raise e => Raise e
  end.

(** *** binary64 samples *)

Definition f64 (n d : Z) : PrimFloat.float :=
  PrimFloat.div (float64_of_Z n) (float64_of_Z d).

(** A fresh instance computing in binary64. *)
Definition fresh64 : BcsdBase PrimFloat.float unit unit :=
  __init__ PrimFloat.float unit no_freq (GrouperFunc month_of_year) tt.

(** One January sample, 0.1, and a January climatology of 10^16. *)
Definition s_tenth : list (Z * PrimFloat.float) := [(0%Z, f64 1 10)].
Definition climo_large : list (Z * PrimFloat.float) :=
  [(1%Z, float64_of_Z (10 ^ 16))].

(** Six Januaries: 0.1, four times 0, and 6 * 2^60 (mean 2^60); the target
    is 0 throughout. *)
Definition X_six_januaries : list (Z * PrimFloat.float) :=
  [(0, f64 1 10); (12, f64 0 1); (24, f64 0 1); (36, f64 0 1);
   (48, f64 0 1); (60, float64_of_Z (6 * 2 ^ 60))]%Z.

(** Modelled from the spec: a Quantile Mapper whose [fit] "fails if any
    group ... contains non-finite values". *)
Definition is_finite (x : PrimFloat.float) : bool :=
  PrimFloat.ltb (PrimFloat.abs x) PrimFloat.infinity.
Definition finite_fit (_ : unit) (d : list PrimFloat.float) : result unit :=
  if forallb is_finite d then Ok tt
  else Raise (ValueError "Input contains NaN or infinity").

(** January and February of two years, with an infinite amount in the
    second February: the means are 2 in January and infinite in
    February. *)
Definition X_two_years : list (Z * PrimFloat.float) :=
  [(0, f64 1 1); (1, f64 5 1); (12, f64 3 1); (13, f64 7 1)]%Z.
Definition y_infinite_february : list (Z * PrimFloat.float) :=
  [(0, f64 1 1); (1, f64 4 1); (12, f64 3 1); (13, PrimFloat.infinity)]%Z.

(** Whether row [i] of a result carries the binary64 value [x]. *)
Definition row_is (r : result (list (Z * PrimFloat.float))) (i : nat)
    (x : PrimFloat.float) : bool :=
  match r with
  | Ok s =>
      match s !! i with
      | Some (_, v) => PrimFloat.eqb v x
      | None => false
      end
  | Raise _ => false
  end.
(** ** Facts about the pandas operations *)

Section PandasFacts.

Context {V : Type}.

Implicit Types (s l : list (Z * V)) (g : Z → Z) (k : Z) (ks : list Z).

Lemma result_bind_Ok {A B} (f : A → result B) (a : A) : Ok a ≫= f = f a.
Proof. reflexivity. Qed.

Lemma result_bind_Raise {A B} (f : A → result B) (e : exn) :
  Raise e ≫= f = Raise e.
Proof. reflexivity. Qed.

Lemma index_fmap_keep (f : Z * V → Z * V) s :
  (∀ r, (f r).1 = r.1) → index (f <$> s) = index s.
Proof.
  intros Hf. unfold index. rewrite <-list_fmap_compose.
  apply list_fmap_ext. intros _ r _. apply Hf.
Qed.

Lemma wf_series_NoDup s : wf_series s → NoDup (index s).
Proof.
  unfold wf_series. induction 1 as [|t idx _ IH Hall]; constructor; [|done].
  intros Hin. rewrite Forall_forall in Hall.
  specialize (Hall t Hin). lia.
Qed.

Lemma NoDup_index_inj s (x y : Z * V) :
  NoDup (index s) → x ∈ s → y ∈ s → x.1 = y.1 → x = y.
Proof.
  unfold index. induction s as [|r s IH]; intros Hnd Hx Hy Heq.
  { by apply elem_of_nil in Hx. }
  rewrite fmap_cons in Hnd. apply NoDup_cons in Hnd as [Hr Hnd].
  apply elem_of_cons in Hx as [->|Hx]; apply elem_of_cons in Hy as [->|Hy].
  - done.
  - exfalso. apply Hr. rewrite Heq. by apply list_elem_of_fmap_2.
  - exfalso. apply Hr. rewrite <-Heq. by apply list_elem_of_fmap_2.
  - by apply IH.
Qed.

Lemma wf_series_sorted s : wf_series s → StronglySorted pd.index_le s.
Proof.
  unfold wf_series, index. induction s as [|r s IH]; intros Hs.
  { constructor. }
  rewrite fmap_cons in Hs. apply StronglySorted_inv in Hs as [Hs Hall].
  constructor; [by apply IH|].
  rewrite Forall_fmap in Hall. eapply Forall_impl; [exact Hall|].
  intros x Hx. unfold pd.index_le. simpl in Hx. lia.
Qed.

#[local] Instance index_le_trans : Transitive (@pd.index_le V).
Proof. intros x y z. unfold pd.index_le. lia. Qed.

#[local] Instance index_le_total : Total (@pd.index_le V).
Proof. intros x y. unfold pd.index_le. lia. Qed.

(** Sorting any rearrangement of a time series gives the series back. *)
Lemma sort_index_perm l s : l ≡ₚ s → wf_series s → pd.sort_index l = s.
Proof.
  intros Hp Hwf. unfold pd.sort_index.
  apply (StronglySorted_unique_strong pd.index_le).
  - intros x y Hx Hy Hxy Hyx.
    apply (NoDup_index_inj s); [by apply wf_series_NoDup| |done|].
    + by rewrite <-Hp, <-(merge_sort_Permutation pd.index_le l).
    + unfold pd.index_le in *. lia.
  - apply StronglySorted_merge_sort; apply _.
  - by apply wf_series_sorted.
  - by rewrite merge_sort_Permutation.
Qed.

(** The index of a sorted frame depends on the index alone. *)
Lemma sort_index_index l s :
  index l ≡ₚ index s → wf_series s → index (pd.sort_index l) = index s.
Proof.
  intros Hp Hwf. apply (StronglySorted_unique Z.le).
  - unfold index, pd.sort_index.
    apply (StronglySorted_fmap fst pd.index_le); [done|].
    apply StronglySorted_merge_sort; apply _.
  - unfold wf_series in Hwf.
    eapply (StronglySorted_fmap id Z.lt Z.le) in Hwf; [|intros; simpl; lia].
    by rewrite list_fmap_id in Hwf.
  - rewrite <-Hp. unfold index, pd.sort_index.
    by rewrite merge_sort_Permutation.
Qed.

Lemma sort_index_length l : length (pd.sort_index l) = length l.
Proof.
  unfold pd.sort_index. by rewrite merge_sort_Permutation.
Qed.

Lemma elem_of_group_keys g s k :
  k ∈ pd.group_keys g s ↔ ∃ r, r ∈ s ∧ g r.1 = k.
Proof.
  unfold pd.group_keys, index.
  rewrite merge_sort_Permutation, elem_of_remove_dups, list_elem_of_fmap.
  split.
  - intros (t & -> & Ht). apply list_elem_of_fmap in Ht as (r & -> & Hr).
    by exists r.
  - intros (r & Hr & <-). exists r.1. split; [done|].
    by apply list_elem_of_fmap_2.
Qed.

Lemma NoDup_group_keys g s : NoDup (pd.group_keys g s).
Proof.
  unfold pd.group_keys. rewrite merge_sort_Permutation.
  apply NoDup_remove_dups.
Qed.

Lemma group_keys_nil g : pd.group_keys g ([] : list (Z * V)) = [].
Proof. reflexivity. Qed.

Lemma group_keys_nonempty g s : s ≠ [] → pd.group_keys g s ≠ [].
Proof.
  destruct s as [|r s]; [done|]. intros _ Hnil.
  assert (g r.1 ∈ pd.group_keys g (r :: s)) as Hin.
  { apply elem_of_group_keys. exists r. split; [left|done]. }
  rewrite Hnil in Hin. by apply elem_of_nil in Hin.
Qed.

Lemma filter_key_split g s k ks :
  k ∉ ks →
  filter (λ r : Z * V, g r.1 = k) s ++ filter (λ r : Z * V, g r.1 ∈ ks) s
  ≡ₚ filter (λ r : Z * V, g r.1 ∈ k :: ks) s.
Proof.
  intros Hk. induction s as [|r s IH]; [done|].
  rewrite !filter_cons.
  destruct (decide (g r.1 = k)) as [Heq|Hne],
           (decide (g r.1 ∈ ks)) as [Hin|Hnin],
           (decide (g r.1 ∈ k :: ks)) as [Hin'|Hnin']; simpl.
  - exfalso. apply Hk. by rewrite <-Heq.
  - exfalso. apply Hk. by rewrite <-Heq.
  - by rewrite IH.
  - exfalso. apply Hnin'. rewrite Heq. left.
  - rewrite <-Permutation_middle. by rewrite IH.
  - exfalso. apply Hnin'. by right.
  - exfalso. by apply elem_of_cons in Hin' as [?|?].
  - done.
Qed.

Lemma join_groups_filter g s ks :
  NoDup ks →
  mjoin (pd.get_group g s <$> ks) ≡ₚ filter (λ r : Z * V, g r.1 ∈ ks) s.
Proof.
  induction 1 as [|k ks Hk _ IH].
  - simpl. symmetry. apply Permutation_nil_r.
    induction s as [|r s IHs]; [done|].
    rewrite filter_cons, decide_False; [done|]. by intros ?%elem_of_nil.
  - rewrite fmap_cons. simpl. rewrite IH. by apply filter_key_split.
Qed.

(** The groups of a [groupby] partition the series. *)
Lemma groupby_partition g s : mjoin (pd.groupby g s).*2 ≡ₚ s.
Proof.
  unfold pd.groupby. rewrite <-list_fmap_compose.
  change (mjoin (pd.get_group g s <$> pd.group_keys g s) ≡ₚ s).
  rewrite join_groups_filter by apply NoDup_group_keys.
  assert (Forall (λ r : Z * V, g r.1 ∈ pd.group_keys g s) s) as Hall.
  { apply Forall_forall. intros r Hr. apply elem_of_group_keys. by exists r. }
  clear -Hall. revert Hall. generalize (pd.group_keys g s). intros ks.
  induction 1 as [|r s' Hr _ IH]; [done|].
  rewrite filter_cons, decide_True by done. by rewrite IH.
Qed.

Lemma concat_nonempty (dfs : list (list (Z * V))) :
  dfs ≠ [] → pd.concat dfs = Ok (mjoin dfs).
Proof. by destruct dfs. Qed.

Lemma join_fmap_groups (f : Z * V → Z * V) (l : list (Z * list (Z * V))) :
  mjoin ((λ kg : Z * list (Z * V), f <$> kg.2) <$> l) = f <$> mjoin l.*2.
Proof.
  induction l as [|x l IH]; [done|].
  rewrite !fmap_cons. simpl. by rewrite fmap_app, IH.
Qed.

Lemma groupby_keys g s kg : kg ∈ pd.groupby g s → kg.2 = pd.get_group g s kg.1.
Proof.
  unfold pd.groupby. intros (k & -> & _)%list_elem_of_fmap. done.
Qed.

Lemma groupby_key_elem g s kg :
  kg ∈ pd.groupby g s → ∃ r, r ∈ s ∧ g r.1 = kg.1.
Proof.
  unfold pd.groupby. intros (k & -> & Hk)%list_elem_of_fmap.
  by apply elem_of_group_keys.
Qed.

Lemma groupby_nonempty g s : s ≠ [] → pd.groupby g s ≠ [].
Proof.
  intros Hs Hnil. apply (group_keys_nonempty g) in Hs.
  unfold pd.groupby in Hnil. by apply fmap_nil_inv in Hnil.
Qed.

End PandasFacts.
(** ** Facts about the helpers of [BcsdBase] *)

Section HelperFacts.

Context {V : Type} `{!Arith V} {Kwargs Mapper : Type}.
Variable qm_fit : Kwargs → list V → result Mapper.
Variable qm_transform : Mapper → list V → list V.

Implicit Types (self : BcsdBase V Kwargs Mapper) (s : list (Z * V)).
Implicit Types (groups : list (Z * list (Z * V))) (climo : list (Z * V)).

Lemma loc_cases climo k :
  (∃ v, pd.loc climo k = Ok v) ∨ pd.loc climo k = Raise (KeyError k).
Proof.
  induction climo as [|[k' v] climo IH]; simpl; [by right|].
  case_decide; [left; by exists v|done].
Qed.

Lemma loc_climo_at climo k : is_Ok (pd.loc climo k) → pd.loc climo k = Ok (climo_at climo k).
Proof. intros [v Hv]. unfold climo_at. by rewrite Hv. Qed.

Lemma anomaly_index g climo s : index (anomaly g climo <$> s) = index s.
Proof. by apply index_fmap_keep. Qed.

Lemma remove_climatology_loop_Ok g s climo groups :
  (∀ kg, kg ∈ groups → kg.2 = pd.get_group g s kg.1 ∧ is_Ok (pd.loc climo kg.1)) →
  remove_climatology_loop groups climo
  = Ok ((λ kg : Z * list (Z * V), anomaly g climo <$> kg.2) <$> groups).
Proof.
  induction groups as [|[k grp] groups IH]; intros Hall; [done|].
  simpl. destruct (Hall (k, grp)) as [Hgrp Hloc]; [left|]. simpl in *.
  rewrite (loc_climo_at _ _ Hloc), result_bind_Ok.
  rewrite IH by (intros kg Hkg; apply Hall; by right).
  rewrite result_bind_Ok. do 2 f_equal.
  unfold pd.sub_scalar. apply list_fmap_ext. intros i r Hr.
  apply list_elem_of_lookup_2 in Hr. rewrite Hgrp in Hr.
  apply list_elem_of_filter in Hr as [Hk _].
  unfold anomaly. by rewrite Hk.
Qed.

Lemma remove_climatology_loop_Raise groups climo e :
  remove_climatology_loop groups climo = Raise e →
  ∃ kg, kg ∈ groups ∧ e = KeyError kg.1 ∧ pd.loc climo kg.1 = Raise e.
Proof.
  induction groups as [|[k grp] groups IH]; [done|]. simpl.
  destruct (loc_cases climo k) as [[v Hv]|Hk].
  - rewrite Hv, result_bind_Ok.
    destruct (remove_climatology_loop groups climo) as [dfs|e'] eqn:Hrest;
      [done|].
    rewrite result_bind_Raise. intros [= ->].
    destruct (IH eq_refl) as (kg & Hkg & He & Hloc).
    exists kg. split; [by right|done].
  - rewrite Hk, result_bind_Raise. intros [= <-].
    exists (k, grp). split; [left|done].
Qed.

Lemma remove_climatology_loop_uncovered groups climo kg :
  kg ∈ groups → ¬ is_Ok (pd.loc climo kg.1) →
  ∃ e, remove_climatology_loop groups climo = Raise e.
Proof.
  induction groups as [|[k grp] groups IH]; intros Hin Hno.
  { by apply elem_of_nil in Hin. }
  simpl. destruct (loc_cases climo k) as [[v Hv]|Hk].
  - rewrite Hv, result_bind_Ok.
    apply elem_of_cons in Hin as [->|Hin].
    { exfalso. apply Hno. by exists v. }
    destruct (IH Hin Hno) as [e ->]. by exists e.
  - rewrite Hk. by eexists.
Qed.

(** On a non-empty time series whose period keys all have an entry,
    [_remove_climatology] subtracts, row by row, the entry of the row's
    period key. *)
Lemma remove_climatology_covered self s climo :
  wf_series s → s ≠ [] → covers (grouper_ self) climo s →
  _remove_climatology self s climo = Ok (anomaly (grouper_ self) climo <$> s).
Proof.
  intros Hwf Hne Hcov. unfold _remove_climatology.
  rewrite (remove_climatology_loop_Ok (grouper_ self) s).
  2:{ intros kg Hkg. split; [by apply groupby_keys|].
      destruct (groupby_key_elem _ _ _ Hkg) as (r & Hr & <-). by apply Hcov. }
  rewrite result_bind_Ok.
  rewrite concat_nonempty.
  2:{ intros Hnil%fmap_nil_inv. by apply groupby_nonempty in Hnil. }
  rewrite result_bind_Ok, join_fmap_groups.
  assert (pd.sort_index
            (anomaly (grouper_ self) climo <$> mjoin (pd.groupby (grouper_ self) s).*2)
          = anomaly (grouper_ self) climo <$> s) as ->.
  { apply sort_index_perm.
    - by rewrite groupby_partition.
    - unfold wf_series. by rewrite anomaly_index. }
  rewrite decide_True; [done|]. by rewrite length_fmap.
Qed.

(** The empty series: no group, and [pd.concat] refuses. *)
Lemma remove_climatology_nil self climo :
  _remove_climatology self [] climo
  = Raise (ValueError "No objects to concatenate").
Proof. reflexivity. Qed.

(** A period key without entry surfaces as the [KeyError] of that key. *)
Lemma remove_climatology_uncovered self s climo r :
  r ∈ s → ¬ is_Ok (pd.loc climo (grouper_ self r.1)) →
  ∃ k, _remove_climatology self s climo = Raise (KeyError k)
       ∧ (∃ r', r' ∈ s ∧ grouper_ self r'.1 = k)
       ∧ pd.loc climo k = Raise (KeyError k).
Proof.
  intros Hr Hno. unfold _remove_climatology.
  assert ((grouper_ self r.1, pd.get_group (grouper_ self) s (grouper_ self r.1))
          ∈ pd.groupby (grouper_ self) s) as Hin.
  { unfold pd.groupby. apply list_elem_of_fmap.
    exists (grouper_ self r.1). split; [done|].
    apply elem_of_group_keys. by exists r. }
  destruct (remove_climatology_loop_uncovered _ climo _ Hin Hno) as [e He].
  rewrite He, result_bind_Raise.
  apply remove_climatology_loop_Raise in He as (kg & Hkg & -> & Hloc).
  exists kg.1. split; [done|]. split; [|done].
  by apply groupby_key_elem in Hkg.
Qed.

End HelperFacts.

Section TransformFacts.

Context {V : Type} `{!Arith V} {Kwargs Mapper : Type}.
Variable qm_transform : Mapper → list V → list V.

(** The interface of the quantile mapper: [transform] returns as many
    values as it is given. *)
Hypothesis qm_transform_length :
  ∀ m d, length (qm_transform m d) = length d.

Implicit Types (self : BcsdBase V Kwargs Mapper) (s : list (Z * V)).
Implicit Types (groups : list (Z * list (Z * V))).

Lemma DataFrame_Ok (data : list V) (idx : list Z) :
  length data = length idx → pd.DataFrame data idx = Ok (zip idx data).
Proof. intros Hlen. unfold pd.DataFrame. by rewrite decide_True. Qed.

Lemma qm_transform_loop_Ok self groups :
  (∀ kg, kg ∈ groups → is_Some (quantile_mappers_ self !! kg.1)) →
  ∃ dfs, qm_transform_loop qm_transform self groups = Ok dfs
         ∧ Forall2 (λ (kg : Z * list (Z * V)) (df : list (Z * V)),
                      ∃ m, quantile_mappers_ self !! kg.1 = Some m
                           ∧ df = zip (index kg.2) (qm_transform m (values kg.2)))
                   groups dfs.
Proof.
  induction groups as [|[k grp] groups IH]; intros Hall.
  { exists []. split; [done|constructor]. }
  destruct (Hall (k, grp)) as [m Hm]; [left|]. simpl in Hm.
  destruct IH as (dfs & Hdfs & Hall2).
  { intros kg Hkg. apply Hall. by right. }
  exists (zip (index grp) (qm_transform m (values grp)) :: dfs). split.
  - simpl. unfold dict_getitem. rewrite Hm, result_bind_Ok.
    unfold ensure_samples_features. rewrite DataFrame_Ok.
    + by rewrite result_bind_Ok, Hdfs.
    + rewrite qm_transform_length. unfold values, index.
      by rewrite !length_fmap.
  - constructor; [|done]. by exists m.
Qed.

Lemma qm_transform_loop_Raise self groups e :
  qm_transform_loop qm_transform self groups = Raise e →
  ∃ kg, kg ∈ groups ∧ e = KeyError kg.1
        ∧ quantile_mappers_ self !! kg.1 = None.
Proof.
  induction groups as [|[k grp] groups IH]; [done|]. simpl.
  unfold dict_getitem.
  destruct (quantile_mappers_ self !! k) as [m|] eqn:Hm.
  - rewrite result_bind_Ok. unfold ensure_samples_features.
    rewrite DataFrame_Ok.
    2:{ rewrite qm_transform_length. unfold values, index.
        by rewrite !length_fmap. }
    rewrite result_bind_Ok.
    destruct (qm_transform_loop qm_transform self groups) as [dfs|e'];
      [done|].
    rewrite result_bind_Raise. intros [= ->].
    destruct (IH eq_refl) as (kg & Hkg & He & Hnone).
    exists kg. split; [by right|done].
  - rewrite result_bind_Raise. intros [= <-].
    exists (k, grp). split; [left|done].
Qed.

Lemma qm_transform_loop_unfitted self groups kg :
  kg ∈ groups → quantile_mappers_ self !! kg.1 = None →
  ∃ e, qm_transform_loop qm_transform self groups = Raise e.
Proof.
  intros Hin Hnone.
  destruct (qm_transform_loop qm_transform self groups) as [dfs|e] eqn:Hl;
    [|by exists e].
  exfalso. revert dfs Hl.
  induction groups as [|[k grp] groups IH]; intros dfs.
  { by apply elem_of_nil in Hin. }
  simpl. unfold dict_getitem.
  destruct (quantile_mappers_ self !! k) as [m|] eqn:Hm; [|done].
  rewrite result_bind_Ok.
  destruct (pd.DataFrame _ _) as [df|]; [|done]. rewrite result_bind_Ok.
  destruct (qm_transform_loop qm_transform self groups) as [dfs'|]; [|done].
  intros _. apply elem_of_cons in Hin as [->|Hin].
  - simpl in Hnone. congruence.
  - by apply (IH Hin dfs').
Qed.

Lemma frames_index groups (dfs : list (list (Z * V))) :
  Forall2 (λ (kg : Z * list (Z * V)) (df : list (Z * V)),
             index df = index kg.2) groups dfs →
  index (mjoin dfs) = index (mjoin groups.*2).
Proof.
  unfold index. induction 1 as [|kg df groups dfs Hdf _ IH]; [done|].
  rewrite fmap_cons. simpl. rewrite !fmap_app. by rewrite IH, Hdf.
Qed.

(** Re-assembly: on a non-empty time series whose period keys are all
    fitted, the transformed groups come back on the index of the input. *)
Lemma qm_transform_by_group_index self s :
  wf_series s → s ≠ [] → all_fitted self s →
  ∃ out, _qm_transform_by_group qm_transform self
           (pd.groupby (grouper_ self) s) = Ok out
         ∧ index out = index s.
Proof.
  intros Hwf Hne Hfit. unfold _qm_transform_by_group.
  destruct (qm_transform_loop_Ok self (pd.groupby (grouper_ self) s))
    as (dfs & -> & Hall2).
  { intros kg Hkg. destruct (groupby_key_elem _ _ _ Hkg) as (r & Hr & <-).
    by apply Hfit. }
  rewrite result_bind_Ok, concat_nonempty.
  2:{ intros ->. apply Forall2_nil_inv_r in Hall2.
      by apply groupby_nonempty in Hall2. }
  rewrite result_bind_Ok. eexists. split; [done|].
  apply sort_index_index; [|done].
  rewrite (frames_index (pd.groupby (grouper_ self) s)).
  - unfold index. by rewrite groupby_partition.
  - eapply Forall2_impl; [exact Hall2|].
    intros kg df (m & _ & ->). unfold index. apply fst_zip.
    rewrite qm_transform_length. unfold values. by rewrite !length_fmap.
Qed.


(** A period key without mapper surfaces as the [KeyError] of that key. *)
Lemma qm_transform_by_group_unfitted self s r :
  r ∈ s → quantile_mappers_ self !! grouper_ self r.1 = None →
  ∃ k, _qm_transform_by_group qm_transform self
         (pd.groupby (grouper_ self) s) = Raise (KeyError k)
       ∧ (∃ r', r' ∈ s ∧ grouper_ self r'.1 = k)
       ∧ quantile_mappers_ self !! k = None.
Proof.
  intros Hr Hnone. unfold _qm_transform_by_group.
  assert ((grouper_ self r.1, pd.get_group (grouper_ self) s (grouper_ self r.1))
          ∈ pd.groupby (grouper_ self) s) as Hin.
  { unfold pd.groupby. apply list_elem_of_fmap.
    exists (grouper_ self r.1). split; [done|].
    apply elem_of_group_keys. by exists r. }
  destruct (qm_transform_loop_unfitted self _ _ Hin Hnone) as [e He].
  rewrite He, result_bind_Raise.
  apply qm_transform_loop_Raise in He as (kg & Hkg & -> & Hk).
  exists kg.1. split; [done|]. split; [|done].
  by apply groupby_key_elem in Hkg.
Qed.

End TransformFacts.
(** ** The rolling mean of [BcsdTemperature.predict] *)

Section RollingFacts.

Context {V : Type} `{!Arith V}.

Implicit Types (s l : list (Z * V)) (g : Z → Z).

Lemma center_offset_eq : pd.center_offset = 4.
Proof. reflexivity. Qed.

Lemma rolling_func_index s : index (rolling_func s) = index s.
Proof.
  unfold rolling_func, pd.rolling_mean, index.
  apply list_eq. intros i.
  rewrite !list_lookup_fmap, list_lookup_imap.
  by destruct (s !! i).
Qed.

Lemma at_label_elem l t v :
  NoDup (index l) → (t, v) ∈ l → pd.at_label l t = Some v.
Proof.
  unfold index. induction l as [|[t' v'] l IH]; intros Hnd Hin.
  { by apply elem_of_nil in Hin. }
  rewrite fmap_cons in Hnd. apply NoDup_cons in Hnd as [Hfresh Hnd].
  simpl. case_decide as Ht.
  - subst t'. apply elem_of_cons in Hin as [[= ->]|Hin]; [done|].
    exfalso. apply Hfresh. by apply (list_elem_of_fmap_2 fst _ (t, v)).
  - apply elem_of_cons in Hin as [[= -> ->]|Hin]; [done|]. by apply IH.
Qed.

Lemma reindex_imap l s (F : nat → Z * V → V) :
  (∀ i r, s !! i = Some r → pd.at_label l r.1 = Some (F i r)) →
  pd.reindex (index s) l = imap (λ i r, (r.1, F i r)) s.
Proof.
  unfold pd.reindex, index. revert F.
  induction s as [|r s IH]; intros F HF; [done|].
  rewrite fmap_cons. simpl. rewrite (HF 0%nat r eq_refl). simpl.
  f_equal. apply (IH (λ i, F (S i))). intros i r' Hi. by apply HF.
Qed.

Lemma filter_lookup_take (P : Z * V → Prop) `{!∀ r, Decision (P r)} s i r :
  s !! i = Some r → P r →
  filter P s !! length (filter P (take i s)) = Some r.
Proof.
  intros Hi HP. remember (length (filter P (take i s))) as n eqn:Hn.
  rewrite <-(take_drop_middle s i r Hi).
  rewrite filter_app, filter_cons, decide_True by done.
  by rewrite list_lookup_middle.
Qed.

Lemma applied_groups_index g (f : list (Z * V) → list (Z * V)) s :
  (∀ x, index (f x) = index x) →
  index (mjoin ((λ kg : Z * list (Z * V), f kg.2) <$> pd.groupby g s))
  ≡ₚ index s.
Proof.
  intros Hf. rewrite (frames_index (pd.groupby g s)).
  - unfold index. by rewrite groupby_partition.
  - apply Forall2_fmap_r, Forall_Forall2_diag, Forall_forall.
    intros kg _. apply Hf.
Qed.

(** Row by row: the value put at row [i] is the mean of the window
    centered on the row's position within its own group. *)
Lemma groupby_apply_rolling g s :
  wf_series s →
  pd.groupby_apply g rolling_func s
  = imap (λ i (r : Z * V),
            (r.1, pd.mean (pd.window (values (pd.get_group g s (g r.1)))
                             (length (pd.get_group g (take i s) (g r.1)))))) s.
Proof.
  intros Hwf. unfold pd.groupby_apply. apply reindex_imap.
  intros i [t v] Hi. simpl. apply at_label_elem.
  { rewrite applied_groups_index by apply rolling_func_index.
    by apply wf_series_NoDup. }
  apply list_elem_of_join.
  exists (rolling_func (pd.get_group g s (g t))). split.
  - unfold rolling_func, pd.rolling_mean.
    apply (elem_of_lookup_imap_2
             (λ i (r : Z * V),
                (r.1, pd.mean (pd.window (values (pd.get_group g s (g t))) i)))
             _ (t, v)).
    unfold pd.get_group. by apply filter_lookup_take.
  - apply list_elem_of_fmap.
    exists (g t, pd.get_group g s (g t)). split; [done|].
    unfold pd.groupby. apply list_elem_of_fmap. exists (g t). split; [done|].
    apply elem_of_group_keys. exists (t, v). split; [|done].
    by apply list_elem_of_lookup_2 in Hi.
Qed.

Lemma groupby_apply_rolling_index g s :
  wf_series s → index (pd.groupby_apply g rolling_func s) = index s.
Proof.
  intros Hwf. rewrite groupby_apply_rolling by done.
  unfold index. apply list_eq. intros i.
  rewrite !list_lookup_fmap, list_lookup_imap.
  by destruct (s !! i).
Qed.

Lemma window_length (l : list V) (j : nat) :
  (j < length l)%nat → (1 ≤ length (pd.window l j) ≤ 9)%nat.
Proof.
  intros Hj. unfold pd.window. rewrite center_offset_eq.
  rewrite length_take, length_drop. lia.
Qed.

Lemma window_own (l : list V) (j : nat) (v : V) :
  l !! j = Some v → v ∈ pd.window l j.
Proof.
  intros Hj. unfold pd.window. rewrite center_offset_eq.
  apply list_elem_of_lookup. exists (j - (j - 4))%nat.
  rewrite lookup_take_lt by lia. rewrite lookup_drop.
  by replace (j - 4 + (j - (j - 4)))%nat with j by lia.
Qed.

End RollingFacts.

(** C2, as the code has it: step 1 of [BcsdTemperature.predict] keeps the
    index of the input (a 3-sample series yields 3 values) and puts at
    each row the mean of a centered window of at most nine consecutive
    samples of the row's own period group -- positions [j-4 .. j+4] of
    the group, [j] being the row's position in it -- which always holds the
    row's own sample, so that no value is missing. *)
Theorem C2_rolling_mean_is_per_group {V : Type} `{!Arith V} (g : Z → Z)
    (X : list (Z * V))
    (i : nat) (t : Z) (v : V) :
  wf_series X → X !! i = Some (t, v) →
  let group := values (pd.get_group g X (g t)) in
  let j := length (pd.get_group g (take i X) (g t)) in
  index (pd.groupby_apply g rolling_func X) = index X
  ∧ pd.groupby_apply g rolling_func X !! i
    = Some (t, pd.mean (pd.window group j))
  ∧ pd.window group j = take (S (j + 4) - (j - 4)) (drop (j - 4) group)
  ∧ group !! j = Some v
  ∧ v ∈ pd.window group j
  ∧ (1 ≤ length (pd.window group j) ≤ 9)%nat.
Proof.
  intros Hwf Hi group j.
  assert (group !! j = Some v) as Hj.
  { unfold group, j, values, pd.get_group. rewrite list_lookup_fmap.
    by rewrite (filter_lookup_take _ X i (t, v)). }
  split; [by apply groupby_apply_rolling_index|].
  split.
  { rewrite groupby_apply_rolling by done.
    rewrite list_lookup_imap, Hi. done. }
  split; [done|]. split; [done|].
  split; [by apply window_own|].
  apply window_length. by apply lookup_lt_Some in Hj.
Qed.

Lemma C2_rolling_mean_is_per_group_witness :
  pd.groupby_apply month_of_year rolling_func X_sample !! 2%nat
  = Some (12%Z, pd.mean (pd.window [Q_ 1; Q_ 3; Q_ 8] 1)).
Proof.
  assert (wf_series X_sample) as Hwf.
  { unfold wf_series. vm_compute.
    repeat (constructor; [|repeat constructor; lia]). constructor. }
  exact (proj1 (proj2
    (C2_rolling_mean_is_per_group month_of_year X_sample 2 12%Z (Q_ 3)
       Hwf eq_refl))).
Defined.

(** C2, as stated, fails: on January and February samples of three years
    the code's step 1 differs from the rolling mean over the whole
    series. *)
Lemma C2_rolling_mean_whole_series_counterexample :
  pd.groupby_apply month_of_year rolling_func X_sample
  ≠ spec_rolling_mean X_sample.
Proof.
  intros H. apply (f_equal (λ s, fractions (Ok s))) in H.
  vm_compute in H. discriminate H.
Qed.
(** ** Frame arithmetic and broadcasting *)

Section ArithmeticFacts.

Context {V : Type} `{!Arith V}.

Implicit Types (a b s : list (Z * V)) (g : Z → Z) (climo : list (Z * V)).

Lemma elem_of_index s t : t ∈ index s ↔ ∃ r, r ∈ s ∧ r.1 = t.
Proof.
  unfold index. rewrite list_elem_of_fmap. split.
  - intros (r & -> & Hr). by exists r.
  - intros (r & Hr & <-). by exists r.
Qed.

Lemma covers_index g climo a b :
  index a = index b → covers g climo a → covers g climo b.
Proof.
  intros Hab Hcov r Hr.
  assert (r.1 ∈ index a) as (r' & Hr' & Heq)%elem_of_index.
  { rewrite Hab. apply elem_of_index. by exists r. }
  rewrite <-Heq. by apply Hcov.
Qed.

Lemma index_nonempty a b : index a = index b → a ≠ [] → b ≠ [].
Proof. intros Hab Ha ->. destruct a; [done|discriminate Hab]. Qed.

Lemma wf_series_index a b : index a = index b → wf_series a → wf_series b.
Proof. unfold wf_series. by intros ->. Qed.


Lemma zip_with_index (op : V → V → V) a b :
  index a = index b →
  index (zip_with (λ x y : Z * V, (x.1, op x.2 y.2)) a b) = index a.
Proof.
  unfold index. revert b.
  induction a as [|x a IH]; intros [|y b] Hab; try done.
  rewrite !fmap_cons in Hab. injection Hab as Hxy Hab.
  simpl. f_equal. by apply IH.
Qed.

Lemma binop_aligned (op : V → V → V) a b :
  index a = index b →
  pd.binop op a b = Ok (zip_with (λ x y : Z * V, (x.1, op x.2 y.2)) a b).
Proof. intros Hab. unfold pd.binop. by rewrite decide_True. Qed.

Lemma binop_same_index (op : V → V → V) a b :
  index a = index b → ∃ d, pd.binop op a b = Ok d ∧ index d = index a.
Proof.
  intros Hab. eexists. split; [by apply binop_aligned|].
  by apply zip_with_index.
Qed.


Lemma broadcast_covered g climo (idx : list Z) :
  (∀ t, t ∈ idx → is_Ok (pd.loc climo (g t))) →
  broadcast g climo idx = Ok ((λ t, (t, climo_at climo (g t))) <$> idx).
Proof.
  induction idx as [|t idx IH]; intros Hcov; [done|].
  simpl. rewrite (loc_climo_at climo (g t)) by (apply Hcov; left).
  rewrite result_bind_Ok, IH by (intros t' Ht'; apply Hcov; by right).
  done.
Qed.

Lemma broadcast_series g climo s :
  covers g climo s →
  broadcast g climo (index s)
  = Ok ((λ r : Z * V, (r.1, climo_at climo (g r.1))) <$> s).
Proof.
  intros Hcov. rewrite broadcast_covered.
  - unfold index. by rewrite <-list_fmap_compose.
  - intros t (r & Hr & <-)%elem_of_index. by apply Hcov.
Qed.


(** Adding the climatology back, row by row. *)
Lemma add_broadcast_anomaly g climo s :
  covers g climo s →
  (bc ← broadcast g climo (index (anomaly g climo <$> s));
   pd.add (anomaly g climo <$> s) bc)
  = Ok ((λ r : Z * V,
           (r.1, v_add (v_sub r.2 (climo_at climo (g r.1)))
                   (climo_at climo (g r.1)))) <$> s).
Proof.
  intros Hcov. rewrite anomaly_index.
  rewrite broadcast_series, result_bind_Ok by done.
  unfold pd.add. rewrite binop_aligned.
  2:{ rewrite anomaly_index. unfold index.
      rewrite <-list_fmap_compose. by apply list_fmap_ext. }
  f_equal. induction s as [|r s IH]; [done|].
  rewrite !fmap_cons. simpl. rewrite IH; [done|].
  intros r' Hr'. apply Hcov. by right.
Qed.

End ArithmeticFacts.
(** ** Facts about [fit] *)

Section FitFacts.

Context {V : Type} `{!Arith V} {Kwargs Mapper : Type}.
Variable qm_fit : Kwargs → list V → result Mapper.

Implicit Types (self : BcsdBase V Kwargs Mapper) (s X y : list (Z * V)).
Implicit Types (groups : list (Z * list (Z * V))) (g : Z → Z) (k : Z).

Lemma BcsdBase_eq (a b : BcsdBase V Kwargs Mapper) :
  grouper_ a = grouper_ b → qm_kwargs a = qm_kwargs b →
  quantile_mappers_ a = quantile_mappers_ b →
  _x_climo a = _x_climo b → _y_climo a = _y_climo b → a = b.
Proof. destruct a, b. simpl. by intros -> -> -> -> ->. Qed.

(** The loop of [_qm_fit_by_group] only touches the dictionary. *)
Lemma qm_fit_by_group_frame self groups :
  grouper_ (_qm_fit_by_group qm_fit self groups).1 = grouper_ self
  ∧ qm_kwargs (_qm_fit_by_group qm_fit self groups).1 = qm_kwargs self
  ∧ _x_climo (_qm_fit_by_group qm_fit self groups).1 = _x_climo self
  ∧ _y_climo (_qm_fit_by_group qm_fit self groups).1 = _y_climo self.
Proof.
  revert self. induction groups as [|[k grp] groups IH]; intros self; [done|].
  simpl. destruct (qm_fit _ _) as [m|e]; [|done].
  apply (IH (set_quantile_mappers _ self)).
Qed.

Lemma qm_fit_by_group_notin self groups k :
  k ∉ groups.*1 →
  quantile_mappers_ (_qm_fit_by_group qm_fit self groups).1 !! k
  = quantile_mappers_ self !! k.
Proof.
  revert self. induction groups as [|[k' grp] groups IH]; intros self Hk;
    [done|].
  rewrite fmap_cons in Hk. apply not_elem_of_cons in Hk as [Hne Hk].
  simpl. destruct (qm_fit _ _) as [m|e]; [|done].
  rewrite IH by done. simpl. by rewrite lookup_insert_ne.
Qed.

(** It never removes a key. *)
Lemma qm_fit_by_group_keeps self groups k :
  is_Some (quantile_mappers_ self !! k) →
  is_Some (quantile_mappers_ (_qm_fit_by_group qm_fit self groups).1 !! k).
Proof.
  revert self. induction groups as [|[k' grp] groups IH]; intros self Hk;
    [done|].
  simpl. destruct (qm_fit _ _) as [m|e]; [|done].
  apply IH. simpl. destruct (decide (k' = k)) as [->|Hne].
  - by rewrite lookup_insert_eq.
  - by rewrite lookup_insert_ne.
Qed.

Lemma qm_fit_by_group_app self (gs1 gs2 : list (Z * list (Z * V))) :
  _qm_fit_by_group qm_fit self (gs1 ++ gs2)
  = match (_qm_fit_by_group qm_fit self gs1).2 with
    | Ok _ => _qm_fit_by_group qm_fit
                (_qm_fit_by_group qm_fit self gs1).1 gs2
    | Raise e => ((_qm_fit_by_group qm_fit self gs1).1, Raise e)
    end.
Proof.
  revert self. induction gs1 as [|[k grp] gs1 IH]; intros self; [done|].
  simpl. destruct (qm_fit _ _) as [m|e]; [|done]. apply IH.
Qed.

(** The loop returns exactly when the mapper can be fitted on every
    group. *)
Lemma qm_fit_by_group_returns_iff self groups :
  (_qm_fit_by_group qm_fit self groups).2 = Ok tt
  ↔ ∀ kg, kg ∈ groups → is_Ok (qm_fit (qm_kwargs self) (values kg.2)).
Proof.
  revert self. induction groups as [|[k grp] groups IH]; intros self.
  { split; [by intros _ kg ?%elem_of_nil|done]. }
  simpl. unfold ensure_samples_features.
  destruct (qm_fit (qm_kwargs self) (values grp)) as [m|e] eqn:Hm.
  - rewrite IH. simpl. split.
    + intros Hall kg [->|Hkg]%elem_of_cons; [by exists m|by apply Hall].
    + intros Hall kg Hkg. apply Hall. by right.
  - simpl. split; [done|]. intros Hall.
    destruct (Hall (k, grp)) as [m Hm']; [left|]. simpl in Hm'. congruence.
Qed.

Lemma qm_fit_by_group_Ok_in self groups k (grp : list (Z * V)) :
  (_qm_fit_by_group qm_fit self groups).2 = Ok tt →
  NoDup groups.*1 → (k, grp) ∈ groups →
  ∃ m, qm_fit (qm_kwargs self) (values grp) = Ok m
       ∧ quantile_mappers_ (_qm_fit_by_group qm_fit self groups).1 !! k
         = Some m.
Proof.
  revert self. induction groups as [|[k' grp'] groups IH];
    intros self Hok Hnd Hin.
  { by apply elem_of_nil in Hin. }
  rewrite fmap_cons in Hnd. apply NoDup_cons in Hnd as [Hfresh Hnd].
  simpl in *. unfold ensure_samples_features in *.
  destruct (qm_fit (qm_kwargs self) (values grp')) as [m|e] eqn:Hm; [|done].
  apply elem_of_cons in Hin as [[= -> ->]|Hin].
  - exists m. split; [done|].
    rewrite qm_fit_by_group_notin by done. simpl. by rewrite lookup_insert_eq.
  - by apply (IH (set_quantile_mappers _ self)).
Qed.

(** When the loop raises, it has completed over the groups before the
    one whose fit raised. *)
Lemma qm_fit_by_group_Raise self groups e :
  (_qm_fit_by_group qm_fit self groups).2 = Raise e →
  ∃ pre kg post,
    groups = pre ++ kg :: post
    ∧ qm_fit (qm_kwargs self) (values kg.2) = Raise e
    ∧ _qm_fit_by_group qm_fit self pre
      = ((_qm_fit_by_group qm_fit self groups).1, Ok tt).
Proof.
  revert self. induction groups as [|[k grp] groups IH]; intros self; [done|].
  simpl. unfold ensure_samples_features.
  destruct (qm_fit (qm_kwargs self) (values grp)) as [m|e'] eqn:Hm.
  - intros He. destruct (IH _ He) as (pre & kg & post & -> & Hkg & Hpre).
    exists ((k, grp) :: pre), kg, post. split; [done|]. split; [done|].
    simpl. unfold ensure_samples_features. by rewrite Hm.
  - simpl. intros [= ->]. by exists [], (k, grp), groups.
Qed.

(** Running the loop again on the instance it left changes nothing. *)
Lemma qm_fit_by_group_stored self groups :
  (∀ kg, kg ∈ groups →
     ∃ m, qm_fit (qm_kwargs self) (values kg.2) = Ok m
          ∧ quantile_mappers_ self !! kg.1 = Some m) →
  _qm_fit_by_group qm_fit self groups = (self, Ok tt).
Proof.
  induction groups as [|[k grp] groups IH]; intros Hall; [done|].
  simpl. unfold ensure_samples_features.
  destruct (Hall (k, grp)) as (m & Hm & Hk); [left|]. simpl in Hm, Hk.
  rewrite Hm.
  assert (set_quantile_mappers (<[k:=m]> (quantile_mappers_ self)) self
          = self) as ->.
  { apply BcsdBase_eq; try done. simpl. by apply insert_id. }
  apply IH. intros kg Hkg. apply Hall. by right.
Qed.

Lemma qm_fit_by_group_again self groups :
  NoDup groups.*1 →
  _qm_fit_by_group qm_fit (_qm_fit_by_group qm_fit self groups).1 groups
  = ((_qm_fit_by_group qm_fit self groups).1,
     (_qm_fit_by_group qm_fit self groups).2).
Proof.
  intros Hnd.
  destruct (qm_fit_by_group_frame self groups) as (_ & Hkw & _).
  destruct (_qm_fit_by_group qm_fit self groups).2 as [[]|e] eqn:Hr.
  - apply qm_fit_by_group_stored. intros [k grp] Hkg. rewrite Hkw.
    by apply qm_fit_by_group_Ok_in.
  - destruct (qm_fit_by_group_Raise self groups e Hr)
      as (pre & kg & post & Hgroups & Hkg & Hpre).
    set (after := (_qm_fit_by_group qm_fit self groups).1) in *.
    rewrite Hgroups, qm_fit_by_group_app.
    assert (NoDup pre.*1) as Hndpre.
    { rewrite Hgroups, fmap_app in Hnd. by apply NoDup_app in Hnd as [? _]. }
    assert (_qm_fit_by_group qm_fit after pre = (after, Ok tt)) as ->.
    { apply qm_fit_by_group_stored. intros [k grp] Hin. rewrite Hkw.
      pose proof (qm_fit_by_group_Ok_in self pre k grp) as Hin'.
      rewrite Hpre in Hin'. by apply Hin'. }
    destruct kg as [k grp]. simpl in *. unfold ensure_samples_features.
    by rewrite Hkw, Hkg.
Qed.

Lemma groupby_fst g s : (pd.groupby g s).*1 = pd.group_keys g s.
Proof.
  unfold pd.groupby. rewrite <-list_fmap_compose. apply list_fmap_id.
Qed.

Lemma elem_of_groupby g s k (grp : list (Z * V)) :
  (k, grp) ∈ pd.groupby g s
  ↔ k ∈ pd.group_keys g s ∧ grp = pd.get_group g s k.
Proof.
  unfold pd.groupby. rewrite list_elem_of_fmap. split.
  - by intros (k' & [= -> ->] & Hk).
  - intros [Hk ->]. by exists k.
Qed.

(** The dictionary after a fit loop that returned, over the groups of
    [y]: a new mapper for each period key of [y], the old entry for every
    other key. *)
Lemma qm_fit_by_group_lookup self g y k :
  (_qm_fit_by_group qm_fit self (pd.groupby g y)).2 = Ok tt →
  (k ∈ pd.group_keys g y →
   ∃ m, qm_fit (qm_kwargs self) (values (pd.get_group g y k)) = Ok m
        ∧ quantile_mappers_
            (_qm_fit_by_group qm_fit self (pd.groupby g y)).1 !! k = Some m)
  ∧ (k ∉ pd.group_keys g y →
     quantile_mappers_ (_qm_fit_by_group qm_fit self (pd.groupby g y)).1 !! k
     = quantile_mappers_ self !! k).
Proof.
  intros Hok. split.
  - intros Hk. apply qm_fit_by_group_Ok_in; [done| |].
    + rewrite groupby_fst. apply NoDup_group_keys.
    + by apply elem_of_groupby.
  - intros Hk. apply qm_fit_by_group_notin. by rewrite groupby_fst.
Qed.

Lemma loc_keyed (F : Z → V) (ks : list Z) k :
  k ∈ ks → pd.loc ((λ k, (k, F k)) <$> ks) k = Ok (F k).
Proof.
  induction ks as [|k' ks IH]; intros Hk.
  { by apply elem_of_nil in Hk. }
  rewrite fmap_cons. simpl. case_decide as Heq; [by subst|].
  apply IH. by apply elem_of_cons in Hk as [?|?].
Qed.

Lemma loc_keyed_notin (F : Z → V) (ks : list Z) (k : Z) :
  k ∉ ks → pd.loc ((λ k, (k, F k)) <$> ks) k = Raise (KeyError k).
Proof.
  induction ks as [|k' ks IH]; intros Hk; [done|].
  apply not_elem_of_cons in Hk as [Hne Hk].
  rewrite fmap_cons. simpl. rewrite decide_False by done. by apply IH.
Qed.

Lemma groupby_mean_keyed g s :
  pd.groupby_mean (pd.groupby g s)
  = (λ k, (k, pd.mean (values (pd.get_group g s k)))) <$> pd.group_keys g s.
Proof.
  unfold pd.groupby_mean, pd.groupby. by rewrite <-list_fmap_compose.
Qed.

(** The climatology of a series has an entry for each of its period
    keys: the mean of that group. *)
Lemma loc_groupby_mean g s k :
  k ∈ pd.group_keys g s →
  pd.loc (pd.groupby_mean (pd.groupby g s)) k
  = Ok (pd.mean (values (pd.get_group g s k))).
Proof.
  intros Hk. rewrite groupby_mean_keyed.
  by apply (loc_keyed (λ k, pd.mean (values (pd.get_group g s k)))).
Qed.

Lemma group_keys_index g (a b : list (Z * V)) :
  index a = index b → pd.group_keys g a = pd.group_keys g b.
Proof. unfold pd.group_keys. by intros ->. Qed.

Lemma covers_groupby_mean g s : covers g (pd.groupby_mean (pd.groupby g s)) s.
Proof.
  intros r Hr. eexists. apply loc_groupby_mean.
  apply elem_of_group_keys. by exists r.
Qed.

Lemma elem_of_groupby_mean g s k (v : V) :
  (k, v) ∈ pd.groupby_mean (pd.groupby g s)
  ↔ k ∈ pd.group_keys g s ∧ v = pd.mean (values (pd.get_group g s k)).
Proof.
  rewrite groupby_mean_keyed, list_elem_of_fmap. split.
  - by intros (k' & [= -> ->] & Hk).
  - intros [Hk ->]. by exists k.
Qed.

(** [BcsdTemperature.fit] replaces both climatologies, whatever its
    outcome. *)
Lemma temperature_fit_climatologies self X y :
  let fitted := (BcsdTemperature_fit qm_fit self X y).1 in
  grouper_ fitted = grouper_ self
  ∧ qm_kwargs fitted = qm_kwargs self
  ∧ _x_climo fitted = Some (pd.groupby_mean (pd.groupby (grouper_ self) X))
  ∧ _y_climo fitted = Some (pd.groupby_mean (pd.groupby (grouper_ self) y)).
Proof.
  unfold BcsdTemperature_fit. simpl.
  match goal with
  | |- context [_qm_fit_by_group qm_fit ?m ?gs] =>
      destruct (qm_fit_by_group_frame m gs) as (Hg & Hk & Hx & Hy)
  end.
  by rewrite Hg, Hk, Hx, Hy.
Qed.

Lemma temperature_fit_mappers self X y k :
  (BcsdTemperature_fit qm_fit self X y).2 = Ok tt →
  let g := grouper_ self in
  let fitted := (BcsdTemperature_fit qm_fit self X y).1 in
  (k ∈ pd.group_keys g y →
   ∃ m, qm_fit (qm_kwargs self) (values (pd.get_group g y k)) = Ok m
        ∧ quantile_mappers_ fitted !! k = Some m)
  ∧ (k ∉ pd.group_keys g y →
     quantile_mappers_ fitted !! k = quantile_mappers_ self !! k).
Proof.
  unfold BcsdTemperature_fit. simpl. intros Hok.
  apply (qm_fit_by_group_lookup _ _ _ k Hok).
Qed.

Lemma temperature_fit_keeps self X y k :
  is_Some (quantile_mappers_ self !! k) →
  is_Some (quantile_mappers_ (BcsdTemperature_fit qm_fit self X y).1 !! k).
Proof.
  intros Hk. unfold BcsdTemperature_fit. by apply qm_fit_by_group_keeps.
Qed.

(** The three ways of [BcsdPrecipitation.fit]. *)
Lemma precipitation_fit_cases self X (y : pandas_obj V) :
  let climo := pd.groupby_mean (pd.groupby (grouper_ self) (rows_of y)) in
  ((∃ rows, y = FrameOf rows)
   ∧ BcsdPrecipitation_fit qm_fit self X y
     = (set_y_climo climo self,
        Raise (ValueError "The truth value of a Series is ambiguous")))
  ∨ ((∃ rows, y = SeriesOf rows) ∧ pd.le_zero (pd.min climo) = true
     ∧ BcsdPrecipitation_fit qm_fit self X y
       = (set_y_climo climo self,
          Raise (ValueError "Invalid value in target climatology")))
  ∨ ((∃ rows, y = SeriesOf rows) ∧ pd.le_zero (pd.min climo) = false
     ∧ BcsdPrecipitation_fit qm_fit self X y
       = _qm_fit_by_group qm_fit (set_y_climo climo self)
           (pd.groupby (grouper_ self) (rows_of y))).
Proof.
  unfold BcsdPrecipitation_fit. destruct y as [rows|rows]; simpl.
  - right. destruct (pd.le_zero _); [left|right]; eauto.
  - left. eauto.
Qed.

Lemma precipitation_fit_climatology self X (y : pandas_obj V) :
  let after := (BcsdPrecipitation_fit qm_fit self X y).1 in
  grouper_ after = grouper_ self
  ∧ qm_kwargs after = qm_kwargs self
  ∧ _x_climo after = _x_climo self
  ∧ _y_climo after
    = Some (pd.groupby_mean (pd.groupby (grouper_ self) (rows_of y))).
Proof.
  destruct (precipitation_fit_cases self X y)
    as [[_ ->]|[(_ & _ & ->)|(_ & _ & ->)]]; [done..|].
  simpl.
  match goal with
  | |- context [_qm_fit_by_group qm_fit ?m ?gs] =>
      destruct (qm_fit_by_group_frame m gs) as (Hg & Hk & Hx & Hy)
  end.
  by rewrite Hg, Hk, Hx, Hy.
Qed.

Lemma precipitation_fit_keeps self X (y : pandas_obj V) k :
  is_Some (quantile_mappers_ self !! k) →
  is_Some (quantile_mappers_ (BcsdPrecipitation_fit qm_fit self X y).1 !! k).
Proof.
  intros Hk.
  destruct (precipitation_fit_cases self X y)
    as [[_ ->]|[(_ & _ & ->)|(_ & _ & ->)]]; [done..|].
  by apply qm_fit_by_group_keeps.
Qed.

Lemma precipitation_fit_mappers self X (y : pandas_obj V) k :
  (BcsdPrecipitation_fit qm_fit self X y).2 = Ok tt →
  let g := grouper_ self in
  let fitted := (BcsdPrecipitation_fit qm_fit self X y).1 in
  (k ∈ pd.group_keys g (rows_of y) →
   ∃ m, qm_fit (qm_kwargs self) (values (pd.get_group g (rows_of y) k)) = Ok m
        ∧ quantile_mappers_ fitted !! k = Some m)
  ∧ (k ∉ pd.group_keys g (rows_of y) →
     quantile_mappers_ fitted !! k = quantile_mappers_ self !! k).
Proof.
  destruct (precipitation_fit_cases self X y)
    as [[_ ->]|[(_ & _ & ->)|(_ & _ & ->)]]; [done..|].
  intros Hok. apply (qm_fit_by_group_lookup _ _ _ k Hok).
Qed.

End FitFacts.

(** The test [min <= 0] of [BcsdPrecipitation.fit], when the comparison
    orders the entries of the climatology: some entry is at most 0. *)
Section MinFacts.

Context {V : Type} `{!Arith V}.

Lemma arith_order_totally_ordered `{!ArithOrder V} (l : list V) :
  totally_ordered l.
Proof.
  split.
  - intros x y _ _. apply v_leb_total.
  - intros x y _ _. apply v_leb_trans.
Qed.

Lemma totally_ordered_subseteq (l l' : list V) :
  l' ⊆ l → totally_ordered l → totally_ordered l'.
Proof.
  intros Hsub [Htot Htrans]. split.
  - intros x y Hx Hy. apply Htot; by apply Hsub.
  - intros x y Hx Hy. apply Htrans; by apply Hsub.
Qed.

Lemma v_min_elem (x y : V) : pd.v_min x y = x ∨ pd.v_min x y = y.
Proof. unfold pd.v_min. destruct (v_leb x y); auto. Qed.

Lemma v_min_le_zero (x y : V) :
  totally_ordered [x; y] →
  v_leb (pd.v_min x y) v_zero = true
  ↔ v_leb x v_zero = true ∨ v_leb y v_zero = true.
Proof.
  intros [Htot Htrans].
  assert (x ∈ [x; y]) as Hx by left.
  assert (y ∈ [x; y]) as Hy by (right; left).
  unfold pd.v_min. destruct (v_leb x y) eqn:Hxy.
  - split; [by left|]. intros [?|Hle]; [done|].
    by apply (Htrans x y).
  - assert (v_leb y x = true) as Hyx.
    { destruct (Htot x y Hx Hy) as [?|?]; [congruence|done]. }
    split; [by right|]. intros [Hle|?]; [|done].
    by apply (Htrans y x).
Qed.

Lemma foldl_min_le_zero (v : V) (vs : list V) :
  totally_ordered (v :: vs) →
  v_leb (foldl pd.v_min v vs) v_zero = true
  ↔ ∃ x, x ∈ v :: vs ∧ v_leb x v_zero = true.
Proof.
  revert v. induction vs as [|w vs IH]; intros v Hord; simpl.
  - split; [intros Hv; exists v; split; [left|done]|].
    by intros (x & ->%list_elem_of_singleton & Hx).
  - assert (totally_ordered [v; w]) as Hvw.
    { apply (totally_ordered_subseteq (v :: w :: vs)); [|done].
      intros x [->|[->|[]%elem_of_nil]%elem_of_cons]%elem_of_cons;
        [left|right; left]. }
    rewrite IH.
    2:{ apply (totally_ordered_subseteq (v :: w :: vs)); [|done].
        intros x [->|Hx]%elem_of_cons; [|by do 2 right].
        destruct (v_min_elem v w) as [->| ->]; [left|right; left]. }
    split.
    + intros (x & [Hx|Hx]%elem_of_cons & Hle).
      * subst x. apply v_min_le_zero in Hle as [Hle|Hle]; [| |done].
        -- exists v. split; [left|done].
        -- exists w. split; [right; left|done].
      * exists x. split; [by do 2 right|done].
    + intros (x & [Hx|[Hx|Hx]%elem_of_cons]%elem_of_cons & Hle).
      * subst x. exists (pd.v_min v w). split; [left|].
        apply v_min_le_zero; [done|]. by left.
      * subst x. exists (pd.v_min v w). split; [left|].
        apply v_min_le_zero; [done|]. by right.
      * exists x. split; [by right|done].
Qed.

Lemma min_le_zero (c : list (Z * V)) :
  totally_ordered (values c) →
  pd.le_zero (pd.min c) = true
  ↔ ∃ k v, (k, v) ∈ c ∧ v_leb v v_zero = true.
Proof.
  unfold pd.min, values. destruct c as [|[k0 v0] c]; intros Hord.
  { simpl. split; [done|]. by intros (k & v & ?%elem_of_nil & _). }
  rewrite fmap_cons in Hord |- *. simpl. rewrite foldl_min_le_zero by done.
  change (v0 :: c.*2) with (((k0, v0) :: c).*2). split.
  - intros (x & Hx & Hle). apply list_elem_of_fmap in Hx as ([k v] & -> & Hkv).
    by exists k, v.
  - intros (k & v & Hkv & Hle). exists v. split; [|done].
    by apply (list_elem_of_fmap_2 snd _ (k, v)).
Qed.

End MinFacts.

(** ** Prediction with mappers that return their argument *)

Section IdentityMapper.

Context {V : Type} `{!Arith V} {Kwargs Mapper : Type}.
Variable qm_transform : Mapper → list V → list V.
Hypothesis qm_transform_id : ∀ m d, qm_transform m d = d.

Implicit Types (self : BcsdBase V Kwargs Mapper) (a b X : list (Z * V)).

Lemma all_fitted_index self a b :
  index a = index b → all_fitted self a → all_fitted self b.
Proof.
  intros Hab Hfit r Hr.
  assert (r.1 ∈ index a) as (r' & Hr' & Heq)%elem_of_index.
  { rewrite Hab. apply elem_of_index. by exists r. }
  rewrite <-Heq. by apply Hfit.
Qed.




End IdentityMapper.

(** ** The claims *)

Lemma wf_X_sample : wf_series X_sample.
Proof.
  unfold wf_series. vm_compute.
  repeat (constructor; [|repeat constructor; lia]). constructor.
Qed.


Lemma wf_X_march : wf_series X_march.
Proof.
  unfold wf_series. vm_compute.
  repeat (constructor; [|repeat constructor; lia]). constructor.
Qed.

Lemma wf_X_six_januaries : wf_series X_six_januaries.
Proof.
  unfold wf_series. vm_compute.
  repeat (constructor; [|repeat constructor; lia]). constructor.
Qed.

(** C1, as the code has it: on a fitted model [BcsdTemperature.predict]
    computes, in this order, (1) the rolling mean of [X_new] taken within
    each period group (window 9, centered, min_periods 1), (2) the shift,
    by [_remove_climatology] with the training-input climatology, (3) the
    de-shifted series [X_new - shift], (4) its group-wise quantile
    mapping, (5) the re-shifted series, (6) [_remove_climatology] of the
    latter with the target climatology, which it returns. *)
Theorem C1_predict_steps_in_order {V : Type} `{!Arith V}
    {Kwargs Mapper : Type}
    (qm_transform : Mapper → list V → list V)
    (self : BcsdBase V Kwargs Mapper)
    (x_climo y_climo X_new : list (Z * V)) :
  _x_climo self = Some x_climo → _y_climo self = Some y_climo →
  BcsdTemperature_predict qm_transform self X_new
  = spec_temperature_steps qm_transform
      (pd.groupby_apply (grouper_ self) rolling_func) self
      x_climo y_climo X_new.
Proof.
  intros Hx Hy.
  unfold BcsdTemperature_predict, spec_temperature_steps,
    ensure_samples_features.
  rewrite Hx, Hy. simpl.
  destruct (_remove_climatology self _ x_climo) as [shift|e]; [|done].
  simpl. destruct (pd.sub X_new shift) as [de_shifted|e]; [|done].
  simpl. destruct (_qm_transform_by_group _ _ _) as [mapped|e]; [|done].
  simpl. by destruct (pd.add mapped shift).
Qed.

Lemma C1_predict_steps_in_order_witness :
  BcsdTemperature_predict doubling_transform fitted_T X_sample
  = spec_temperature_steps doubling_transform
      (pd.groupby_apply month_of_year rolling_func) fitted_T
      x_climo_sample y_climo_sample X_sample.
Proof.
  apply (C1_predict_steps_in_order doubling_transform fitted_T
           x_climo_sample y_climo_sample X_sample); reflexivity.
Defined.

(** C1, as stated, fails: with the rolling mean of step 1 taken over the
    whole series the six steps give another result than [predict] (mapper
    doubling its input, January and February samples of three years). *)
Lemma C1_whole_series_steps_counterexample :
  BcsdTemperature_predict doubling_transform fitted_T X_sample
  ≠ spec_temperature_steps doubling_transform spec_rolling_mean fitted_T
      x_climo_sample y_climo_sample X_sample.
Proof.
  intros H. apply (f_equal fractions) in H.
  vm_compute in H. discriminate H.
Qed.

(** C3, at a February sample: the quantile-mapped value is 6 and the
    target climatology of February is 12, yet [BcsdPrecipitation.predict]
    returns no ratio: the division of the GroupBy object raises. *)
Theorem C3_precipitation_predict_raises :
  fractions (_qm_transform_by_group identity_transform fitted_P
               (pd.groupby (grouper_ fitted_P) X_february))
  = Ok [(1%Z, 6%Q)]
  ∧ fractions (getattr "_y_climo" (_y_climo fitted_P))
    = Ok [(1%Z, 10%Q); (2%Z, 12%Q)]
  ∧ BcsdPrecipitation_predict identity_transform fitted_P X_february
    = Raise (TypeError "unsupported operand type(s) for /").
Proof. by vm_compute. Qed.

(** Whatever the model and the input, [BcsdPrecipitation.predict] returns
    no series. *)
Lemma precipitation_predict_never_returns {V : Type} `{!Arith V}
    {Kwargs Mapper : Type}
    (qm_transform : Mapper → list V → list V)
    (self : BcsdBase V Kwargs Mapper) (X : list (Z * V)) :
  ¬ is_Ok (BcsdPrecipitation_predict qm_transform self X).
Proof.
  intros [out Hout]. revert Hout. unfold BcsdPrecipitation_predict.
  destruct (_qm_transform_by_group _ _ _) as [Xqm|e]; [|done]. simpl.
  by destruct (getattr _ _).
Qed.

(** C4, as the code has it, for a target [y] that is a Series whose
    period means the comparison orders (no NaN): [BcsdPrecipitation.fit]
    raises if and only if the mean of some period group of [y] is at most
    0 or [QuantileMapper(...).fit] raises on some period group of [y]; a
    mean at most 0 gives the [ValueError] "Invalid value in target
    climatology"; and when [fit] returns, the target climatology is stored
    and every period group of [y] has its fitted mapper. *)
Theorem C4_precipitation_fit_raises_iff {V : Type} `{!Arith V}
    {Kwargs Mapper : Type}
    (qm_fit : Kwargs → list V → result Mapper)
    (self : BcsdBase V Kwargs Mapper) (X y : list (Z * V)) :
  let g := grouper_ self in
  let target := pd.groupby_mean (pd.groupby g y) in
  let non_positive_mean :=
    ∃ k, k ∈ pd.group_keys g y
         ∧ v_leb (pd.mean (values (pd.get_group g y k))) v_zero = true in
  let mapper_fit_raises :=
    ∃ k, k ∈ pd.group_keys g y
         ∧ ¬ is_Ok (qm_fit (qm_kwargs self)
                      (values (pd.get_group g y k))) in
  let outcome := BcsdPrecipitation_fit qm_fit self X (SeriesOf y) in
  totally_ordered (values target) →
  ((∃ e, outcome.2 = Raise e) ↔ non_positive_mean ∨ mapper_fit_raises)
  ∧ (non_positive_mean →
     outcome.2 = Raise (ValueError "Invalid value in target climatology"))
  ∧ (outcome.2 = Ok tt →
     _y_climo outcome.1 = Some target
     ∧ ∀ k, k ∈ pd.group_keys g y →
            ∃ m, qm_fit (qm_kwargs self) (values (pd.get_group g y k)) = Ok m
                 ∧ quantile_mappers_ outcome.1 !! k = Some m).
Proof.
  intros g target bad mapper_raises outcome Hord.
  assert (pd.le_zero (pd.min target) = true ↔ bad) as Hbad.
  { unfold target. rewrite min_le_zero by done. unfold bad. split.
    - intros (k & v & [Hk ->]%elem_of_groupby_mean & Hle). by exists k.
    - intros (k & Hk & Hle). eexists k, _. split; [|exact Hle].
      by apply elem_of_groupby_mean. }
  pose proof (precipitation_fit_climatology qm_fit self X (SeriesOf y))
    as (_ & _ & _ & Hclimo).
  pose proof (precipitation_fit_mappers qm_fit self X (SeriesOf y)) as Hmap.
  fold outcome in Hclimo, Hmap. simpl in Hclimo, Hmap.
  fold g in Hclimo, Hmap. fold target in Hclimo.
  destruct (precipitation_fit_cases qm_fit self X (SeriesOf y))
    as [[[rows [=]] _]|[(_ & Hle & Hfit)|(_ & Hle & Hfit)]];
    simpl in Hle, Hfit; fold g in Hle, Hfit; fold target in Hle, Hfit;
    fold outcome in Hfit.
  - (* the climatology is rejected *)
    rewrite Hfit. simpl. split; [|split; [done|done]].
    split; [intros _; left; by apply Hbad|intros _; by eexists].
  - (* the climatology passes: the loop decides *)
    assert (¬ bad) as Hgood by (rewrite <-Hbad; congruence).
    split; [|split].
    + split.
      * intros [e He]. right. rewrite Hfit in He.
        apply qm_fit_by_group_Raise in He
          as (pre & [k grp] & post & Hgroups & Hk & _).
        assert ((k, grp) ∈ pd.groupby g y) as [Hin ->]%elem_of_groupby.
        { rewrite Hgroups. apply elem_of_app. right. left. }
        exists k. split; [done|]. simpl in Hk. intros [m Hm]. congruence.
      * intros [Hb|(k & Hk & Hno)]; [done|].
        assert (outcome.2 ≠ Ok tt) as Hout.
        { intros Hout. apply Hno.
          destruct (Hmap k Hout) as [Hin _].
          destruct (Hin Hk) as (m & Hm & _). by exists m. }
        clear Hmap Hfit. destruct outcome.2 as [[]|e]; [done|by eexists].
    + intros Hb. done.
    + intros Hout. split; [done|]. intros k Hk.
      by destruct (Hmap k Hout) as [Hin _]; apply Hin.
Qed.

Lemma C4_precipitation_fit_raises_iff_witness :
  _y_climo (BcsdPrecipitation_fit identity_fit fresh X_sample
              (SeriesOf y_sample)).1
  = Some y_climo_sample
  ∧ BcsdPrecipitation_fit identity_fit fresh X_february
      (SeriesOf y_dry_january)
    = (set_y_climo
         (pd.groupby_mean (pd.groupby month_of_year y_dry_january)) fresh,
       Raise (ValueError "Invalid value in target climatology"))
  ∧ ((∃ e, (BcsdPrecipitation_fit finite_fit fresh64 X_two_years
              (SeriesOf y_infinite_february)).2 = Raise e)
     ↔ (∃ k, k ∈ pd.group_keys month_of_year y_infinite_february
             ∧ v_leb (pd.mean (values (pd.get_group month_of_year
                                         y_infinite_february k)))
                     v_zero = true)
       ∨ (∃ k, k ∈ pd.group_keys month_of_year y_infinite_february
               ∧ ¬ is_Ok (finite_fit tt
                            (values (pd.get_group month_of_year
                                       y_infinite_february k))))).
Proof.
  split; [|split].
  - apply (C4_precipitation_fit_raises_iff identity_fit fresh X_sample
             y_sample).
    + apply arith_order_totally_ordered.
    + reflexivity.
  - apply injective_projections; [reflexivity|].
    apply (C4_precipitation_fit_raises_iff identity_fit fresh X_february
             y_dry_january).
    + apply arith_order_totally_ordered.
    + exists 1%Z. split; [|by vm_compute].
      vm_compute. left.
  - apply (C4_precipitation_fit_raises_iff finite_fit fresh64 X_two_years
             y_infinite_february).
    split; intros x y Hx Hy; vm_compute in Hx, Hy;
      apply elem_of_cons in Hx as [->|Hx];
      try (apply list_elem_of_singleton in Hx as ->);
      apply elem_of_cons in Hy as [->|Hy];
      try (apply list_elem_of_singleton in Hy as ->);
      vm_compute; auto; discriminate.
Defined.

(** C4, as stated, fails: [fit] raises on targets whose period means are
    all positive -- on every one-column DataFrame target (here the
    samples with means 10 and 12), where the test of the minimum has no
    truth value, and on a Series target when the mapper refuses a group
    (here a February holding an infinite amount). *)
Lemma C4_raises_on_positive_means_counterexample :
  (∀ k v, (k, v) ∈ y_climo_sample → (0 < v)%Qc)
  ∧ (BcsdPrecipitation_fit identity_fit fresh X_sample
       (FrameOf y_sample)).2
    = Raise (ValueError "The truth value of a Series is ambiguous")
  ∧ ((λ r : Z * PrimFloat.float, (r.1, PrimFloat.ltb (float64_of_Z 0) r.2))
       <$> pd.groupby_mean (pd.groupby month_of_year y_infinite_february))
    = [(1%Z, true); (2%Z, true)]
  ∧ (BcsdPrecipitation_fit finite_fit fresh64 X_two_years
       (SeriesOf y_infinite_february)).2
    = Raise (ValueError "Input contains NaN or infinity").
Proof.
  split; [|split; [reflexivity|split; by vm_compute]].
  intros k v Hkv. vm_compute in Hkv.
  apply elem_of_cons in Hkv as [[= -> ->]|Hkv];
    [|apply list_elem_of_singleton in Hkv as [= -> ->]]; by vm_compute.
Qed.

(** C5, as the code has it: on a non-empty time series whose period keys
    all have a fitted mapper, [_qm_transform_by_group] returns a series on
    exactly the index of the input -- same timestamps, same order, same
    length.  ([transform] returns as many values as it is given.) *)
Theorem C5_transform_by_group_keeps_index {V : Type} `{!Arith V}
    {Kwargs Mapper : Type}
    (qm_transform : Mapper → list V → list V)
    (self : BcsdBase V Kwargs Mapper) (S : list (Z * V)) :
  (∀ m d, length (qm_transform m d) = length d) →
  wf_series S → S ≠ [] → all_fitted self S →
  ∃ out, _qm_transform_by_group qm_transform self
           (pd.groupby (grouper_ self) S) = Ok out
         ∧ index out = index S
         ∧ length out = length S.
Proof.
  intros Hlen Hwf Hne Hfit.
  destruct (qm_transform_by_group_index qm_transform Hlen self S Hwf Hne Hfit)
    as (out & Hout & Hidx).
  exists out. split; [done|]. split; [done|].
  apply (f_equal length) in Hidx. unfold index in Hidx.
  by rewrite !length_fmap in Hidx.
Qed.

Lemma C5_transform_by_group_keeps_index_witness :
  ∃ out, _qm_transform_by_group doubling_transform fitted_T
           (pd.groupby (grouper_ fitted_T) X_sample) = Ok out
         ∧ index out = index X_sample
         ∧ length out = length X_sample.
Proof.
  apply (C5_transform_by_group_keeps_index doubling_transform fitted_T X_sample).
  - intros m d. unfold doubling_transform. by rewrite length_fmap.
  - exact wf_X_sample.
  - discriminate.
  - intros r Hr. vm_compute in Hr.
    repeat (apply elem_of_cons in Hr as [->|Hr]; [exists tt; by vm_compute|]).
    by apply elem_of_nil in Hr.
Defined.

(** C5, as stated, fails on the empty series: all its period keys are
    fitted, for want of any, and yet no series comes back. *)
Lemma C5_empty_series_counterexample :
  all_fitted fitted_T []
  ∧ ¬ ∃ out, _qm_transform_by_group identity_transform fitted_T
               (pd.groupby (grouper_ fitted_T) []) = Ok out
             ∧ index out = index ([] : list (Z * Qc)).
Proof.
  split.
  - by intros r Hr%elem_of_nil.
  - by intros (out & Hout & _).
Qed.

(** C7, as the code has it: on a non-empty time series whose period keys
    all have an entry in the climatology, [_remove_climatology] returns a
    series of the same index and length, holding at each timestamp the
    sample minus the entry of its period key.  Adding the climatology,
    laid out on that index, gives at each timestamp [(x - c) + c] as the
    arithmetic of the values computes it: the sample [x] itself wherever
    that sum is exact, and the whole series where it is exact
    throughout. *)
Theorem C7_remove_climatology_round_trip {V : Type} `{!Arith V}
    {Kwargs Mapper : Type}
    (self : BcsdBase V Kwargs Mapper) (s climo : list (Z * V)) :
  wf_series s → s ≠ [] → covers (grouper_ self) climo s →
  let g := grouper_ self in
  ∃ out back,
    _remove_climatology self s climo = Ok out
    ∧ index out = index s
    ∧ length out = length s
    ∧ (∀ i t x, s !! i = Some (t, x) →
         out !! i = Some (t, v_sub x (climo_at climo (g t))))
    ∧ (bc ← broadcast g climo (index out); pd.add out bc) = Ok back
    ∧ index back = index s
    ∧ (∀ i t x, s !! i = Some (t, x) →
         back !! i
         = Some (t, v_add (v_sub x (climo_at climo (g t)))
                      (climo_at climo (g t))))
    ∧ ((∀ x c : V, v_add (v_sub x c) c = x) → back = s).
Proof.
  intros Hwf Hne Hcov g.
  exists (anomaly g climo <$> s).
  exists ((λ r : Z * V,
             (r.1, v_add (v_sub r.2 (climo_at climo (g r.1)))
                     (climo_at climo (g r.1)))) <$> s).
  split; [by apply remove_climatology_covered|].
  split; [apply anomaly_index|].
  split; [apply length_fmap|].
  split.
  { intros i t x Hi. by rewrite list_lookup_fmap, Hi. }
  split; [by apply add_broadcast_anomaly|].
  split; [by apply index_fmap_keep|].
  split.
  { intros i t x Hi. by rewrite list_lookup_fmap, Hi. }
  intros Hexact. rewrite <-(list_fmap_id s) at 2.
  apply list_fmap_ext. intros i [t x] _. simpl. by rewrite Hexact.
Qed.

Lemma C7_remove_climatology_round_trip_witness :
  ∃ out back,
    _remove_climatology fitted_T X_sample y_climo_sample = Ok out
    ∧ (bc ← broadcast (grouper_ fitted_T) y_climo_sample (index out);
       pd.add out bc) = Ok back
    ∧ back = X_sample.
Proof.
  destruct (C7_remove_climatology_round_trip fitted_T X_sample y_climo_sample)
    as (out & back & Hout & _ & _ & _ & Hback & _ & _ & Hexact).
  - exact wf_X_sample.
  - discriminate.
  - intros r Hr. vm_compute in Hr.
    repeat (apply elem_of_cons in Hr as [->|Hr]; [by eexists|]).
    by apply elem_of_nil in Hr.
  - exists out, back. split; [exact Hout|]. split; [exact Hback|].
    apply Hexact. intros x c. simpl. ring.
Defined.

(** C7, as stated, fails twice.  On the empty series every climatology
    covers it and [_remove_climatology] raises instead of returning it.
    And in binary64 the sum does not give the series back: with the
    sample 0.1 and the climatology 10^16 it gives 0. *)
Lemma C7_round_trip_counterexample :
  (covers (grouper_ fitted_T) y_climo_sample []
   ∧ ¬ ∃ out, _remove_climatology fitted_T [] y_climo_sample = Ok out)
  ∧ (covers (grouper_ fresh64) climo_large s_tenth
     ∧ row_is (out ← _remove_climatology fresh64 s_tenth climo_large;
               bc ← broadcast (grouper_ fresh64) climo_large (index out);
               pd.add out bc) 0 (float64_of_Z 0) = true
     ∧ row_is (Ok s_tenth) 0 (float64_of_Z 0) = false).
Proof.
  split; split.
  - by intros r Hr%elem_of_nil.
  - by intros (out & Hout).
  - intros r ->%list_elem_of_singleton. by eexists.
  - split; by vm_compute.
Qed.




(** ** Failure and re-fitting *)

Section RefitFacts.

Context {V : Type} `{!Arith V} {Kwargs Mapper : Type}.
Variable qm_fit : Kwargs → list V → result Mapper.
Variable qm_transform : Mapper → list V → list V.

Implicit Types (self first second : BcsdBase V Kwargs Mapper).
Implicit Types (X y : list (Z * V)).

(** A raising loop, read on the groups of a series. *)
Lemma qm_fit_by_group_stopped self groups e :
  (_qm_fit_by_group qm_fit self groups).2 = Raise e →
  stopped_at_failing_group qm_fit self
    (_qm_fit_by_group qm_fit self groups).1 groups e.
Proof.
  intros He.
  destruct (qm_fit_by_group_Raise qm_fit self groups e He)
    as (pre & kg & post & Hgroups & Hkg & Hpre).
  by exists pre, kg, post.
Qed.

(** The consequences of the dictionary being only ever stored into. *)
Lemma refit_from_lookup first second y1 y2 :
  (∀ m d, length (qm_transform m d) = length d) →
  grouper_ second = grouper_ first →
  (∀ k, k ∈ pd.group_keys (grouper_ first) y1 →
        ∃ m, qm_fit (qm_kwargs first)
               (values (pd.get_group (grouper_ first) y1 k)) = Ok m
             ∧ quantile_mappers_ first !! k = Some m) →
  (∀ k, (k ∈ pd.group_keys (grouper_ first) y2 →
         ∃ m, qm_fit (qm_kwargs first)
                (values (pd.get_group (grouper_ first) y2 k)) = Ok m
              ∧ quantile_mappers_ second !! k = Some m)
        ∧ (k ∉ pd.group_keys (grouper_ first) y2 →
           quantile_mappers_ second !! k = quantile_mappers_ first !! k)) →
  refit_keeps_mappers qm_fit qm_transform first second y1 y2.
Proof.
  intros Hlen Hg H1 H2. unfold refit_keeps_mappers.
  assert (∀ k, k ∈ pd.group_keys (grouper_ first) y1
               ∨ k ∈ pd.group_keys (grouper_ first) y2 →
               is_Some (quantile_mappers_ second !! k)) as Hdom.
  { intros k Hk. destruct (H2 k) as [Hin Hout].
    destruct (decide (k ∈ pd.group_keys (grouper_ first) y2)) as [Hk2|Hk2].
    - by destruct (Hin Hk2) as (m & _ & ->).
    - rewrite (Hout Hk2). destruct Hk as [Hk|Hk]; [|done].
      by destruct (H1 k Hk) as (m & _ & ->). }
  split; [|split; [|split]].
  - intros k Hk. destruct (H2 k) as [Hin Hout].
    destruct (decide (k ∈ pd.group_keys (grouper_ first) y2)) as [Hk2|Hk2].
    + by destruct (Hin Hk2) as (m & _ & ->).
    + by rewrite (Hout Hk2).
  - intros k Hk. by apply H2.
  - intros k Hk1 Hk2. destruct (H2 k) as [_ Hout].
    rewrite (Hout Hk2). by apply H1.
  - intros S Hwf Hne Hkeys.
    destruct (qm_transform_by_group_index qm_transform Hlen second S Hwf Hne)
      as (out & Hout & _); [|by exists out].
    intros r Hr. rewrite Hg. by apply Hdom, Hkeys.
Qed.

End RefitFacts.

(** C8, as the code has it: a [fit] that raises rolls nothing back.
    [BcsdTemperature.fit] raises when [QuantileMapper(...).fit] raises on
    some period group of the target: by then both climatologies are those
    of the rejected pair, and the dictionary holds, besides what it held,
    the mappers of the groups that come before that group.
    [BcsdPrecipitation.fit] (target a Series) has by then stored the
    climatology of the rejected target; when the raise is that of the
    climatology test the dictionary is as before the call, otherwise the
    loop has stopped in the same way.  The grouper, the options and, for
    precipitation, the training-input climatology are as before the call,
    and no key has left the dictionary. *)
Theorem C8_failed_fit_state {V : Type} `{!Arith V} {Kwargs Mapper : Type}
    (qm_fit : Kwargs → list V → result Mapper)
    (self : BcsdBase V Kwargs Mapper) (X y : list (Z * V)) (e : exn) :
  let g := grouper_ self in
  let groups := pd.groupby g y in
  let training := pd.groupby_mean (pd.groupby g X) in
  let target := pd.groupby_mean groups in
  ((BcsdTemperature_fit qm_fit self X y).2 = Raise e →
   let after := (BcsdTemperature_fit qm_fit self X y).1 in
   grouper_ after = grouper_ self
   ∧ qm_kwargs after = qm_kwargs self
   ∧ _x_climo after = Some training
   ∧ _y_climo after = Some target
   ∧ (∀ k, is_Some (quantile_mappers_ self !! k) →
           is_Some (quantile_mappers_ after !! k))
   ∧ stopped_at_failing_group qm_fit
       (set_y_climo target (set_x_climo training self)) after groups e)
  ∧ ((BcsdPrecipitation_fit qm_fit self X (SeriesOf y)).2 = Raise e →
     let after := (BcsdPrecipitation_fit qm_fit self X (SeriesOf y)).1 in
     grouper_ after = grouper_ self
     ∧ qm_kwargs after = qm_kwargs self
     ∧ _x_climo after = _x_climo self
     ∧ _y_climo after = Some target
     ∧ (∀ k, is_Some (quantile_mappers_ self !! k) →
             is_Some (quantile_mappers_ after !! k))
     ∧ ((pd.le_zero (pd.min target) = true
         ∧ e = ValueError "Invalid value in target climatology"
         ∧ quantile_mappers_ after = quantile_mappers_ self)
        ∨ (pd.le_zero (pd.min target) = false
           ∧ stopped_at_failing_group qm_fit (set_y_climo target self)
               after groups e))).
Proof.
  intros g groups training target. split.
  - intros He after.
    destruct (temperature_fit_climatologies qm_fit self X y)
      as (Hg & Hk & Hx & Hy).
    do 4 (split; [done|]).
    split; [intros k; apply temperature_fit_keeps|].
    by apply qm_fit_by_group_stopped.
  - intros He after.
    destruct (precipitation_fit_climatology qm_fit self X (SeriesOf y))
      as (Hg & Hk & Hx & Hy).
    do 4 (split; [done|]).
    split; [intros k; apply precipitation_fit_keeps|].
    destruct (precipitation_fit_cases qm_fit self X (SeriesOf y))
      as [[[rows [=]] _]|[(_ & Hle & Hfit)|(_ & Hle & Hfit)]];
      simpl in Hle, Hfit.
    + left. split; [done|]. unfold after. rewrite Hfit in He |- *.
      simpl in He. by injection He as <-.
    + right. split; [done|]. unfold after. rewrite Hfit in He |- *.
      by apply qm_fit_by_group_stopped.
Qed.

Lemma C8_failed_fit_state_witness :
  stopped_at_failing_group finite_fit
    (set_y_climo
       (pd.groupby_mean (pd.groupby month_of_year y_infinite_february))
       (set_x_climo (pd.groupby_mean (pd.groupby month_of_year X_two_years))
          fresh64))
    (BcsdTemperature_fit finite_fit fresh64 X_two_years
       y_infinite_february).1
    (pd.groupby month_of_year y_infinite_february)
    (ValueError "Input contains NaN or infinity")
  ∧ quantile_mappers_
      (BcsdPrecipitation_fit identity_fit fitted_P X_sample
         (SeriesOf y_dry_january)).1
    = quantile_mappers_ fitted_P.
Proof.
  split.
  - apply (C8_failed_fit_state finite_fit fresh64 X_two_years
             y_infinite_february
             (ValueError "Input contains NaN or infinity")).
    by vm_compute.
  - destruct (C8_failed_fit_state identity_fit fitted_P X_sample
                y_dry_january
                (ValueError "Invalid value in target climatology"))
      as [_ Hp].
    destruct Hp as (_ & _ & _ & _ & _ & [(_ & _ & Hsame)|[Hle _]]).
    + reflexivity.
    + exact Hsame.
    + vm_compute in Hle. discriminate Hle.
Defined.

(** C8, as stated, fails.  A fit that raises on a dry January has already
    replaced the target climatology the instance held.  And a fit that
    raises when the mapper refuses the second period group (a February
    holding an infinite amount) has already stored the mapper of the
    first. *)
Lemma C8_failed_fit_not_atomic_counterexample :
  ((BcsdPrecipitation_fit identity_fit fitted_P X_sample
      (SeriesOf y_dry_january)).2
   = Raise (ValueError "Invalid value in target climatology")
   ∧ fractions (getattr "_y_climo" (_y_climo fitted_P))
     = Ok [(1%Z, 10%Q); (2%Z, 12%Q)]
   ∧ fractions (getattr "_y_climo" (_y_climo
       (BcsdPrecipitation_fit identity_fit fitted_P X_sample
          (SeriesOf y_dry_january)).1))
     = Ok [(1%Z, 0%Q); (2%Z, 11%Q)]
   ∧ (BcsdPrecipitation_fit identity_fit fitted_P X_sample
        (SeriesOf y_dry_january)).1
     ≠ fitted_P)
  ∧ ((BcsdTemperature_fit finite_fit fresh64 X_two_years
        y_infinite_february).2
     = Raise (ValueError "Input contains NaN or infinity")
     ∧ quantile_mappers_ fresh64 !! 1%Z = None
     ∧ quantile_mappers_
         (BcsdTemperature_fit finite_fit fresh64 X_two_years
            y_infinite_february).1 !! 1%Z = Some tt
     ∧ quantile_mappers_
         (BcsdTemperature_fit finite_fit fresh64 X_two_years
            y_infinite_february).1 !! 2%Z = None).
Proof.
  split.
  - split; [by vm_compute|]. split; [by vm_compute|]. split; [by vm_compute|].
    intros H.
    apply (f_equal (λ m, fractions (getattr "_y_climo" (_y_climo m)))) in H.
    vm_compute in H. discriminate H.
  - repeat split; by vm_compute.
Qed.

(** ** Unseen period keys *)

Lemma remove_climatology_loop_covers {V : Type} `{!Arith V}
    (groups : list (Z * list (Z * V)))
    (climo : list (Z * V)) (dfs : list (list (Z * V))) :
  remove_climatology_loop groups climo = Ok dfs →
  ∀ kg, kg ∈ groups → is_Ok (pd.loc climo kg.1).
Proof.
  revert dfs. induction groups as [|[k grp] groups IH]; intros dfs Hl kg Hkg.
  { by apply elem_of_nil in Hkg. }
  simpl in Hl. destruct (pd.loc climo k) as [c|] eqn:Hc; [|done].
  rewrite result_bind_Ok in Hl.
  destruct (remove_climatology_loop groups climo) as [dfs'|] eqn:Hrest;
    [|done].
  apply elem_of_cons in Hkg as [->|Hkg]; [by exists c|].
  by apply (IH dfs').
Qed.

(** [_remove_climatology] on a non-empty time series either finds every
    period key and returns the anomalies, or raises the [KeyError] of a
    period key of the series that has no entry. *)
Lemma remove_climatology_cases {V : Type} `{!Arith V} {Kwargs Mapper : Type}
    (self : BcsdBase V Kwargs Mapper) (s climo : list (Z * V)) :
  wf_series s → s ≠ [] →
  _remove_climatology self s climo
  = Ok (anomaly (grouper_ self) climo <$> s)
  ∨ ∃ k, _remove_climatology self s climo = Raise (KeyError k)
         ∧ k ∈ pd.group_keys (grouper_ self) s
         ∧ pd.loc climo k = Raise (KeyError k).
Proof.
  intros Hwf Hne.
  destruct (remove_climatology_loop (pd.groupby (grouper_ self) s) climo)
    as [dfs|e] eqn:Hl.
  - left. apply remove_climatology_covered; [done..|].
    intros r Hr.
    apply (remove_climatology_loop_covers _ _ _ Hl
             (grouper_ self r.1,
              pd.get_group (grouper_ self) s (grouper_ self r.1))).
    unfold pd.groupby. apply list_elem_of_fmap.
    exists (grouper_ self r.1). split; [done|].
    apply elem_of_group_keys. by exists r.
  - right. unfold _remove_climatology. rewrite Hl, result_bind_Raise.
    apply remove_climatology_loop_Raise in Hl as (kg & Hkg & -> & Hloc).
    exists kg.1. split; [done|]. split; [|done].
    apply elem_of_group_keys. by apply groupby_key_elem in Hkg.
Qed.

(** C9: when the input holds a sample whose period key has no fitted
    mapper, [predict] returns nothing and raises the [KeyError] of a
    period key of the input that the fitted state lacks (no mapper for it
    or, in the temperature model, no entry in the training-input
    climatology).  ([transform] returns as many values as it is given.) *)
Theorem C9_unseen_group_raises_KeyError {V : Type} `{!Arith V}
    {Kwargs Mapper : Type}
    (qm_transform : Mapper → list V → list V)
    (self : BcsdBase V Kwargs Mapper) (X : list (Z * V)) (r : Z * V) :
  (∀ m d, length (qm_transform m d) = length d) →
  wf_series X → r ∈ X →
  quantile_mappers_ self !! grouper_ self r.1 = None →
  (∃ k, BcsdPrecipitation_predict qm_transform self X = Raise (KeyError k)
        ∧ k ∈ pd.group_keys (grouper_ self) X
        ∧ quantile_mappers_ self !! k = None)
  ∧ (∀ x_climo, _x_climo self = Some x_climo →
       ∃ k, BcsdTemperature_predict qm_transform self X = Raise (KeyError k)
            ∧ k ∈ pd.group_keys (grouper_ self) X
            ∧ (quantile_mappers_ self !! k = None
               ∨ pd.loc x_climo k = Raise (KeyError k))).
Proof.
  intros Hlen Hwf Hr Hnone. split.
  - destruct (qm_transform_by_group_unfitted qm_transform Hlen self X r
                Hr Hnone) as (k & Hk & Hkey & Hno).
    exists k. unfold BcsdPrecipitation_predict, ensure_samples_features.
    rewrite Hk. split; [done|]. split; [|done].
    by apply elem_of_group_keys.
  - intros x_climo Hx.
    unfold BcsdTemperature_predict, ensure_samples_features.
    rewrite Hx. simpl getattr. rewrite result_bind_Ok.
    pose proof (groupby_apply_rolling_index (grouper_ self) X Hwf) as HR.
    set (R := pd.groupby_apply (grouper_ self) rolling_func X) in *.
    assert (X ≠ []) as Hne by (intros ->; by apply elem_of_nil in Hr).
    destruct (remove_climatology_cases self R x_climo)
      as [->|(k & -> & Hk & Hloc)].
    { by apply (wf_series_index X). }
    { by apply (index_nonempty X). }
    + rewrite result_bind_Ok.
      set (shift := anomaly (grouper_ self) x_climo <$> R).
      assert (index X = index shift) as Hshift.
      { unfold shift. by rewrite anomaly_index. }
      destruct (binop_same_index v_sub X shift Hshift) as (d & Hd & Hdi).
      fold pd.sub in Hd. rewrite Hd, result_bind_Ok.
      assert (r.1 ∈ index d) as (r' & Hr' & Heq)%elem_of_index.
      { rewrite Hdi. apply elem_of_index. by exists r. }
      rewrite <-Heq in Hnone.
      destruct (qm_transform_by_group_unfitted qm_transform Hlen self d r'
                  Hr' Hnone) as (k & -> & Hkey & Hno).
      exists k. split; [done|]. split; [|by left].
      rewrite <-(group_keys_index _ d X Hdi). by apply elem_of_group_keys.
    + exists k. split; [done|]. split; [|by right].
      by rewrite <-(group_keys_index _ R X HR).
Qed.

Lemma C9_unseen_group_raises_KeyError_witness :
  (∃ k, BcsdPrecipitation_predict identity_transform fitted_P X_march
        = Raise (KeyError k)
        ∧ k ∈ pd.group_keys (grouper_ fitted_P) X_march
        ∧ quantile_mappers_ fitted_P !! k = None)
  ∧ (∀ x_climo, _x_climo fitted_P = Some x_climo →
       ∃ k, BcsdTemperature_predict identity_transform fitted_P X_march
            = Raise (KeyError k)
            ∧ k ∈ pd.group_keys (grouper_ fitted_P) X_march
            ∧ (quantile_mappers_ fitted_P !! k = None
               ∨ pd.loc x_climo k = Raise (KeyError k))).
Proof.
  apply (C9_unseen_group_raises_KeyError identity_transform fitted_P X_march
           (2%Z, Q_ 7)).
  - done.
  - exact wf_X_march.
  - right. left.
  - by vm_compute.
Defined.

(** C10, as the code has it: a second [fit] only stores into the
    dictionary of mappers.  Every key fitted before is still there,
    whatever the outcome of the two calls.  When both calls return, keys
    of the second target carry the mapper of the second fit; a key that
    only the first target has keeps the mapper of the first fit, and the
    group-wise transform [_qm_transform_by_group] serves inputs with such
    keys instead of raising.  This holds for [BcsdTemperature.fit] and
    for [BcsdPrecipitation.fit].  ([transform] returns as many values as
    it is given.) *)
Theorem C10_second_fit_keeps_mappers {V : Type} `{!Arith V}
    {Kwargs Mapper : Type}
    (qm_fit : Kwargs → list V → result Mapper)
    (qm_transform : Mapper → list V → list V)
    (self : BcsdBase V Kwargs Mapper) (X1 y1 X2 y2 : list (Z * V)) :
  (∀ m d, length (qm_transform m d) = length d) →
  (let first := (BcsdTemperature_fit qm_fit self X1 y1).1 in
   let second := (BcsdTemperature_fit qm_fit first X2 y2).1 in
   (∀ k, is_Some (quantile_mappers_ self !! k) →
         is_Some (quantile_mappers_ first !! k)
         ∧ is_Some (quantile_mappers_ second !! k))
   ∧ ((BcsdTemperature_fit qm_fit self X1 y1).2 = Ok tt →
      (BcsdTemperature_fit qm_fit first X2 y2).2 = Ok tt →
      refit_keeps_mappers qm_fit qm_transform first second y1 y2))
  ∧ (let first := (BcsdPrecipitation_fit qm_fit self X1 (SeriesOf y1)).1 in
     let second := (BcsdPrecipitation_fit qm_fit first X2 (SeriesOf y2)).1 in
     (∀ k, is_Some (quantile_mappers_ self !! k) →
           is_Some (quantile_mappers_ first !! k)
           ∧ is_Some (quantile_mappers_ second !! k))
     ∧ ((BcsdPrecipitation_fit qm_fit self X1 (SeriesOf y1)).2 = Ok tt →
        (BcsdPrecipitation_fit qm_fit first X2 (SeriesOf y2)).2 = Ok tt →
        refit_keeps_mappers qm_fit qm_transform first second y1 y2)).
Proof.
  intros Hlen. split.
  - intros first second. split.
    { intros k Hk.
      assert (is_Some (quantile_mappers_ first !! k)) as Hk1
        by (by apply temperature_fit_keeps).
      split; [done|]. by apply temperature_fit_keeps. }
    intros Hok1 Hok2.
    destruct (temperature_fit_climatologies qm_fit self X1 y1)
      as (Hg1 & Hk1 & _).
    destruct (temperature_fit_climatologies qm_fit first X2 y2)
      as (Hg2 & _).
    pose proof (λ k, temperature_fit_mappers qm_fit self X1 y1 k Hok1) as Hm1.
    pose proof (λ k, temperature_fit_mappers qm_fit first X2 y2 k Hok2)
      as Hm2.
    change (BcsdTemperature_fit qm_fit self X1 y1).1 with first
      in Hg1, Hm1, Hk1.
    change (BcsdTemperature_fit qm_fit first X2 y2).1 with second
      in Hg2, Hm2.
    simpl in Hm1, Hm2.
    apply refit_from_lookup; [done..| |done].
    intros k Hk. rewrite Hg1 in Hk. rewrite Hk1, Hg1. by apply Hm1.
  - intros first second. split.
    { intros k Hk.
      assert (is_Some (quantile_mappers_ first !! k)) as Hk1
        by (by apply precipitation_fit_keeps).
      split; [done|]. by apply precipitation_fit_keeps. }
    intros Hok1 Hok2.
    destruct (precipitation_fit_climatology qm_fit self X1 (SeriesOf y1))
      as (Hg1 & Hk1 & _).
    destruct (precipitation_fit_climatology qm_fit first X2 (SeriesOf y2))
      as (Hg2 & _).
    pose proof (λ k, precipitation_fit_mappers qm_fit self X1 (SeriesOf y1)
                       k Hok1) as Hm1.
    pose proof (λ k, precipitation_fit_mappers qm_fit first X2 (SeriesOf y2)
                       k Hok2) as Hm2.
    change (BcsdPrecipitation_fit qm_fit self X1 (SeriesOf y1)).1 with first
      in Hg1, Hm1, Hk1.
    change (BcsdPrecipitation_fit qm_fit first X2 (SeriesOf y2)).1 with second
      in Hg2, Hm2.
    simpl in Hm1, Hm2.
    apply refit_from_lookup; [done..| |done].
    intros k Hk. rewrite Hg1 in Hk. rewrite Hk1, Hg1. by apply Hm1.
Qed.

Lemma C10_second_fit_keeps_mappers_witness :
  refit_keeps_mappers identity_fit identity_transform
    fitted_T refitted_T y_sample X_march.
Proof.
  apply (C10_second_fit_keeps_mappers identity_fit identity_transform fresh
           X_sample y_sample X_march X_march); done.
Defined.

(** C10, as stated, fails for the [predict] call as a whole: after the
    second fit the January mapper of the first fit is still in the
    dictionary and the group-wise transform uses it, but
    [BcsdTemperature.predict] on a January sample raises the [KeyError] of
    January all the same -- the climatologies were replaced by those of the
    second training pair. *)
Lemma C10_predict_after_refit_counterexample :
  quantile_mappers_ refitted_T !! 1%Z = Some tt
  ∧ fractions (_qm_transform_by_group identity_transform refitted_T
                 (pd.groupby (grouper_ refitted_T) X_january))
    = Ok [(0%Z, 5%Q)]
  ∧ BcsdTemperature_predict identity_transform refitted_T X_january
    = Raise (KeyError 1)
  ∧ ¬ is_Ok (BcsdTemperature_predict identity_transform refitted_T X_january).
Proof.
  split; [by vm_compute|]. split; [by vm_compute|]. split; [by vm_compute|].
  by intros [out Hout].
Qed.

(** * Further properties of the module *)

(** ** When [BcsdTemperature.predict] returns *)

Section TemperaturePredict.

Context {V : Type} `{!Arith V} {Kwargs Mapper : Type}.
Variable qm_transform : Mapper → list V → list V.
Hypothesis qm_transform_length :
  ∀ m d, length (qm_transform m d) = length d.

Variable self : BcsdBase V Kwargs Mapper.
Variables x_climo y_climo : list (Z * V).
Hypothesis Hx : _x_climo self = Some x_climo.
Hypothesis Hy : _y_climo self = Some y_climo.

Implicit Types (X : list (Z * V)).

Lemma temperature_predict_nil :
  BcsdTemperature_predict qm_transform self []
  = Raise (ValueError "No objects to concatenate").
Proof.
  unfold BcsdTemperature_predict, ensure_samples_features. by rewrite Hx.
Qed.

(** Steps 1 to 3 on a covered input: the shift and the de-shifted series
    both sit on the index of the input. *)
Lemma temperature_predict_prefix X :
  wf_series X → X ≠ [] → covers (grouper_ self) x_climo X →
  ∃ shift d,
    index shift = index X ∧ index d = index X
    ∧ BcsdTemperature_predict qm_transform self X
      = (Xqm ← _qm_transform_by_group qm_transform self
                 (pd.groupby (grouper_ self) d);
         w ← pd.add Xqm shift;
         _remove_climatology self w y_climo).
Proof.
  intros Hwf Hne Hcx.
  unfold BcsdTemperature_predict, ensure_samples_features.
  rewrite Hx, Hy. simpl getattr. rewrite result_bind_Ok.
  pose proof (groupby_apply_rolling_index (grouper_ self) X Hwf) as HR.
  set (R := pd.groupby_apply (grouper_ self) rolling_func X) in *.
  rewrite (remove_climatology_covered self R x_climo).
  2:{ by apply (wf_series_index X). }
  2:{ by apply (index_nonempty X). }
  2:{ by apply (covers_index _ _ X). }
  rewrite result_bind_Ok.
  set (shift := anomaly (grouper_ self) x_climo <$> R).
  assert (index X = index shift) as Hshift.
  { unfold shift. by rewrite anomaly_index. }
  destruct (binop_same_index v_sub X shift Hshift) as (d & Hd & Hdi).
  fold pd.sub in Hd. rewrite Hd, result_bind_Ok.
  exists shift, d. split; [done|]. split; [done|].
  destruct (_qm_transform_by_group _ _ _) as [Xqm|e]; [|done].
  rewrite !result_bind_Ok. by destruct (pd.add Xqm shift).
Qed.

(** Steps 4 and 5 once every period key has its mapper. *)
Lemma temperature_predict_mapped X :
  wf_series X → X ≠ [] → covers (grouper_ self) x_climo X →
  all_fitted self X →
  ∃ w, index w = index X
       ∧ BcsdTemperature_predict qm_transform self X
         = _remove_climatology self w y_climo.
Proof.
  intros Hwf Hne Hcx Hfit.
  destruct (temperature_predict_prefix X Hwf Hne Hcx)
    as (shift & d & Hsi & Hdi & ->).
  destruct (qm_transform_by_group_index qm_transform qm_transform_length
              self d) as (q & -> & Hqi).
  { by apply (wf_series_index X). }
  { by apply (index_nonempty X). }
  { by apply (all_fitted_index self X). }
  rewrite result_bind_Ok.
  destruct (binop_same_index v_add q shift) as (w & Hw & Hwi);
    [congruence|].
  fold pd.add in Hw. rewrite Hw, result_bind_Ok.
  exists w. split; [congruence|done].
Qed.

Lemma temperature_predict_covered X :
  wf_series X → X ≠ [] → covers (grouper_ self) x_climo X →
  all_fitted self X → covers (grouper_ self) y_climo X →
  ∃ out, BcsdTemperature_predict qm_transform self X = Ok out
         ∧ index out = index X.
Proof.
  intros Hwf Hne Hcx Hfit Hcy.
  destruct (temperature_predict_mapped X Hwf Hne Hcx Hfit) as (w & Hwi & ->).
  rewrite (remove_climatology_covered self w y_climo).
  - eexists. split; [done|]. by rewrite anomaly_index.
  - by apply (wf_series_index X).
  - by apply (index_nonempty X).
  - by apply (covers_index _ _ X).
Qed.

Lemma remove_climatology_Ok_covers (s climo out : list (Z * V)) :
  _remove_climatology self s climo = Ok out → covers (grouper_ self) climo s.
Proof.
  intros Hout r Hr.
  destruct (loc_cases climo (grouper_ self r.1)) as [[v Hv]|Hno];
    [by exists v|].
  destruct (remove_climatology_uncovered self s climo r Hr)
    as (k & Hk & _).
  - rewrite Hno. by intros [v Hv].
  - congruence.
Qed.

Lemma temperature_predict_Ok_inv X out :
  wf_series X →
  BcsdTemperature_predict qm_transform self X = Ok out →
  X ≠ [] ∧ covers (grouper_ self) x_climo X ∧ all_fitted self X
  ∧ covers (grouper_ self) y_climo X.
Proof.
  intros Hwf Hout.
  assert (X ≠ []) as Hne.
  { intros ->. by rewrite temperature_predict_nil in Hout. }
  assert (covers (grouper_ self) x_climo X) as Hcx.
  { pose proof (groupby_apply_rolling_index (grouper_ self) X Hwf) as HR.
    apply (covers_index _ _ (pd.groupby_apply (grouper_ self) rolling_func X));
      [done|].
    revert Hout. unfold BcsdTemperature_predict, ensure_samples_features.
    rewrite Hx. simpl getattr. rewrite result_bind_Ok.
    destruct (_remove_climatology self _ x_climo) as [shift|e] eqn:Hs;
      [|done].
    intros _. by apply remove_climatology_Ok_covers in Hs. }
  assert (all_fitted self X) as Hfit.
  { destruct (temperature_predict_prefix X Hwf Hne Hcx)
      as (shift & d & Hsi & Hdi & Hp).
    apply (all_fitted_index self d); [done|].
    intros r Hr.
    destruct (quantile_mappers_ self !! grouper_ self r.1) as [m|] eqn:Hm;
      [done|].
    destruct (qm_transform_by_group_unfitted qm_transform
                qm_transform_length self d r Hr Hm) as (k & Hk & _).
    rewrite Hp, Hk in Hout. done. }
  split; [done|]. split; [done|]. split; [done|].
  destruct (temperature_predict_mapped X Hwf Hne Hcx Hfit) as (w & Hwi & Hp).
  rewrite Hp in Hout. apply remove_climatology_Ok_covers in Hout.
  by apply (covers_index _ _ w).
Qed.

End TemperaturePredict.

(** [BcsdTemperature.predict] on a fitted instance returns exactly when the
    input is non-empty and each of its period keys has an entry in the
    training-input climatology, a fitted mapper, and an entry in the target
    climatology; what it returns sits on the index of the input.
    ([transform] returns as many values as it is given.) *)
Theorem temperature_predict_returns_iff {V : Type} `{!Arith V}
    {Kwargs Mapper : Type}
    (qm_transform : Mapper → list V → list V)
    (self : BcsdBase V Kwargs Mapper) (x_climo y_climo X : list (Z * V)) :
  (∀ m d, length (qm_transform m d) = length d) →
  _x_climo self = Some x_climo → _y_climo self = Some y_climo →
  wf_series X →
  (is_Ok (BcsdTemperature_predict qm_transform self X)
   ↔ X ≠ [] ∧ covers (grouper_ self) x_climo X ∧ all_fitted self X
     ∧ covers (grouper_ self) y_climo X)
  ∧ ∀ out, BcsdTemperature_predict qm_transform self X = Ok out →
           index out = index X ∧ length out = length X.
Proof.
  intros Hlen Hx Hy Hwf. split; [split|].
  - intros [out Hout].
    by apply (temperature_predict_Ok_inv qm_transform Hlen self
                x_climo y_climo Hx Hy X out).
  - intros (Hne & Hcx & Hfit & Hcy).
    destruct (temperature_predict_covered qm_transform Hlen self
                x_climo y_climo Hx Hy X Hwf Hne Hcx Hfit Hcy)
      as (out & Hout & _).
    by exists out.
  - intros out Hout.
    destruct (temperature_predict_Ok_inv qm_transform Hlen self
                x_climo y_climo Hx Hy X out Hwf Hout)
      as (Hne & Hcx & Hfit & Hcy).
    destruct (temperature_predict_covered qm_transform Hlen self
                x_climo y_climo Hx Hy X Hwf Hne Hcx Hfit Hcy)
      as (out' & Hout' & Hidx).
    assert (out' = out) as -> by congruence.
    split; [done|]. apply (f_equal length) in Hidx. unfold index in Hidx.
    by rewrite !length_fmap in Hidx.
Qed.

Lemma temperature_predict_returns_iff_witness :
  is_Ok (BcsdTemperature_predict doubling_transform fitted_T X_sample).
Proof.
  apply (proj1 (temperature_predict_returns_iff doubling_transform fitted_T
                  x_climo_sample y_climo_sample X_sample
                  (λ m d, length_fmap _ d) eq_refl eq_refl wf_X_sample)).
  split; [discriminate|].
  split; [|split]; intros r Hr; vm_compute in Hr;
    repeat (apply elem_of_cons in Hr as [->|Hr];
            [first [by eexists | exists tt; by vm_compute]|]);
    by apply elem_of_nil in Hr.
Defined.

(** A temperature model can always predict the series it was trained on:
    after [fit] has returned on a non-empty training pair with a common
    index, [predict] on the training input returns, on the index of that
    input, whatever the quantile mapper.  ([transform] returns as many
    values as it is given.) *)
Theorem temperature_fit_then_predict_returns {V : Type} `{!Arith V}
    {Kwargs Mapper : Type}
    (qm_fit : Kwargs → list V → result Mapper)
    (qm_transform : Mapper → list V → list V)
    (self : BcsdBase V Kwargs Mapper) (X y : list (Z * V)) :
  (∀ m d, length (qm_transform m d) = length d) →
  wf_series X → X ≠ [] → index X = index y →
  (BcsdTemperature_fit qm_fit self X y).2 = Ok tt →
  ∃ out, BcsdTemperature_predict qm_transform
           (BcsdTemperature_fit qm_fit self X y).1 X = Ok out
         ∧ index out = index X.
Proof.
  intros Hlen Hwf Hne Hidx Hok.
  destruct (temperature_fit_climatologies qm_fit self X y)
    as (Hg & _ & Hx & Hy).
  pose proof (λ k, temperature_fit_mappers qm_fit self X y k Hok) as Hmap.
  simpl in Hmap.
  set (fitted := (BcsdTemperature_fit qm_fit self X y).1) in *.
  clearbody fitted.
  apply (temperature_predict_covered qm_transform Hlen fitted _ _ Hx Hy);
    try done; rewrite ?Hg.
  - apply covers_groupby_mean.
  - intros r Hr. rewrite Hg. destruct (Hmap (grouper_ self r.1)) as [Hin _].
    destruct Hin as (m & _ & ->); [|done].
    rewrite <-(group_keys_index _ X y Hidx).
    apply elem_of_group_keys. by exists r.
  - apply (covers_index _ _ y); [done|]. apply covers_groupby_mean.
Qed.

Lemma temperature_fit_then_predict_returns_witness :
  ∃ out, BcsdTemperature_predict doubling_transform fitted_T X_sample = Ok out
         ∧ index out = index X_sample.
Proof.
  apply (temperature_fit_then_predict_returns identity_fit doubling_transform
           fresh X_sample y_sample).
  - intros m d. unfold doubling_transform. by rewrite length_fmap.
  - exact wf_X_sample.
  - discriminate.
  - reflexivity.
  - reflexivity.
Defined.



(** ** Calling [predict] before [fit] *)

(** On an instance straight from [__init__], [BcsdTemperature.predict]
    raises [AttributeError] for the missing training climatology, whatever
    the input; [BcsdPrecipitation.predict] on a non-empty input raises
    [KeyError], the dictionary of mappers being empty. *)
Theorem predict_before_fit_raises {V : Type} `{!Arith V} {Kwargs Mapper : Type}
    (qm_transform : Mapper → list V → list V)
    (pd_Grouper : string → Z → Z) (tg : time_grouper) (kw : Kwargs)
    (X : list (Z * V)) :
  BcsdTemperature_predict qm_transform (__init__ V Mapper pd_Grouper tg kw) X
  = Raise (AttributeError "_x_climo")
  ∧ (X ≠ [] →
     ∃ k, BcsdPrecipitation_predict qm_transform
            (__init__ V Mapper pd_Grouper tg kw) X = Raise (KeyError k)
          ∧ k ∈ pd.group_keys
                  (grouper_ (__init__ V Mapper pd_Grouper tg kw)) X).
Proof.
  split; [done|]. intros Hne.
  set (self := __init__ V Mapper pd_Grouper tg kw).
  unfold BcsdPrecipitation_predict, ensure_samples_features,
    _qm_transform_by_group.
  destruct (pd.groupby (grouper_ self) X) as [|[k grp] groups] eqn:Hgroups.
  { by apply groupby_nonempty in Hgroups. }
  exists k. split; [done|].
  apply elem_of_group_keys.
  apply (groupby_key_elem (grouper_ self) X (k, grp)).
  rewrite Hgroups. left.
Qed.

Lemma predict_before_fit_raises_witness :
  ∃ k, BcsdPrecipitation_predict identity_transform fresh X_february
       = Raise (KeyError k)
       ∧ k ∈ pd.group_keys (grouper_ fresh) X_february.
Proof.
  apply (predict_before_fit_raises identity_transform no_freq
           (GrouperFunc month_of_year) tt X_february).
  discriminate.
Defined.

(** ** Which period key an error names *)

Section FirstMissingKey.

Context {V : Type} `{!Arith V} {Kwargs Mapper : Type}.
Variable qm_transform : Mapper → list V → list V.
Hypothesis qm_transform_length :
  ∀ m d, length (qm_transform m d) = length d.

Implicit Types (self : BcsdBase V Kwargs Mapper) (s climo : list (Z * V)).
Implicit Types (groups : list (Z * list (Z * V))).

Lemma group_keys_sorted (g : Z → Z) s : StronglySorted Z.le (pd.group_keys g s).
Proof. unfold pd.group_keys. apply StronglySorted_merge_sort; apply _. Qed.

(** In a sorted list of keys, the first one that fails a test is below
    every other one that fails it. *)
Lemma first_failing_is_least (P : Z → Prop) (pre post : list Z) (k k' : Z) :
  StronglySorted Z.le (pre ++ k :: post) →
  Forall P pre → ¬ P k' → k' ∈ pre ++ k :: post → (k ≤ k')%Z.
Proof.
  intros Hs Hpre Hk' Hin.
  apply StronglySorted_app_1_r, StronglySorted_inv in Hs as [_ Hpost].
  apply elem_of_app in Hin as [Hin|Hin].
  { rewrite Forall_forall in Hpre. destruct Hk'. by apply Hpre. }
  apply elem_of_cons in Hin as [->|Hin]; [done|].
  rewrite Forall_forall in Hpost. by apply Hpost.
Qed.

Lemma qm_transform_loop_first self groups e :
  qm_transform_loop qm_transform self groups = Raise e →
  ∃ pre kg post,
    groups = pre ++ kg :: post ∧ e = KeyError kg.1
    ∧ quantile_mappers_ self !! kg.1 = None
    ∧ Forall (λ k, is_Some (quantile_mappers_ self !! k)) pre.*1.
Proof.
  induction groups as [|[k grp] groups IH]; [done|]. simpl.
  unfold dict_getitem.
  destruct (quantile_mappers_ self !! k) as [m|] eqn:Hm.
  - rewrite result_bind_Ok. unfold ensure_samples_features.
    rewrite (DataFrame_Ok).
    2:{ rewrite qm_transform_length. unfold values, index.
        by rewrite !length_fmap. }
    rewrite result_bind_Ok.
    destruct (qm_transform_loop qm_transform self groups) as [dfs|e'];
      [done|].
    rewrite result_bind_Raise. intros [= ->].
    destruct (IH eq_refl) as (pre & kg & post & -> & He & Hnone & Hpre).
    exists ((k, grp) :: pre), kg, post.
    split; [done|]. split; [done|]. split; [done|].
    rewrite fmap_cons. constructor; [simpl; by rewrite Hm|done].
  - rewrite result_bind_Raise. intros [= <-].
    exists [], (k, grp), groups. split; [done|]. split; [done|].
    split; [done|]. constructor.
Qed.

Lemma remove_climatology_loop_first groups climo e :
  remove_climatology_loop groups climo = Raise e →
  ∃ pre kg post,
    groups = pre ++ kg :: post ∧ e = KeyError kg.1
    ∧ pd.loc climo kg.1 = Raise (KeyError kg.1)
    ∧ Forall (λ k, is_Ok (pd.loc climo k)) pre.*1.
Proof.
  induction groups as [|[k grp] groups IH]; [done|]. simpl.
  destruct (loc_cases climo k) as [[v Hv]|Hk].
  - rewrite Hv, result_bind_Ok.
    destruct (remove_climatology_loop groups climo) as [dfs|e']; [done|].
    rewrite result_bind_Raise. intros [= ->].
    destruct (IH eq_refl) as (pre & kg & post & -> & He & Hnone & Hpre).
    exists ((k, grp) :: pre), kg, post.
    split; [done|]. split; [done|]. split; [done|].
    rewrite fmap_cons. constructor; [simpl; by exists v|done].
  - rewrite Hk, result_bind_Raise. intros [= <-].
    exists [], (k, grp), groups. split; [done|]. split; [done|].
    split; [done|]. constructor.
Qed.

End FirstMissingKey.

(** When some period key of the input has no fitted mapper,
    [_qm_transform_by_group] raises the [KeyError] of the smallest such
    key: the groups are taken in key order and the first miss ends the
    call.  ([transform] returns as many values as it is given.) *)
Theorem transform_by_group_names_smallest_unfitted_key
    {V : Type} `{!Arith V} {Kwargs Mapper : Type}
    (qm_transform : Mapper → list V → list V)
    (self : BcsdBase V Kwargs Mapper) (S : list (Z * V)) (r : Z * V) :
  (∀ m d, length (qm_transform m d) = length d) →
  r ∈ S → quantile_mappers_ self !! grouper_ self r.1 = None →
  ∃ k, _qm_transform_by_group qm_transform self
         (pd.groupby (grouper_ self) S) = Raise (KeyError k)
       ∧ k ∈ pd.group_keys (grouper_ self) S
       ∧ quantile_mappers_ self !! k = None
       ∧ ∀ k', k' ∈ pd.group_keys (grouper_ self) S →
               quantile_mappers_ self !! k' = None → (k ≤ k')%Z.
Proof.
  intros Hlen Hr Hnone.
  destruct (qm_transform_by_group_unfitted qm_transform Hlen self S r
              Hr Hnone) as (k & Hk & _ & _).
  unfold _qm_transform_by_group in *.
  destruct (qm_transform_loop qm_transform self _) as [dfs|e] eqn:Hl.
  { rewrite result_bind_Ok in Hk. unfold pd.concat in Hk. by destruct dfs. }
  rewrite result_bind_Raise in Hk. injection Hk as ->.
  apply (qm_transform_loop_first qm_transform Hlen) in Hl
    as (pre & kg & post & Hgroups & [= ->] & Hno & Hpre).
  pose proof (group_keys_sorted (grouper_ self) S) as Hsorted.
  rewrite <-groupby_fst, Hgroups, fmap_app, fmap_cons in Hsorted.
  exists kg.1. split; [done|].
  assert (∀ k', k' ∈ pd.group_keys (grouper_ self) S
                ↔ k' ∈ pre.*1 ++ kg.1 :: post.*1) as Hkeys.
  { intros k'. by rewrite <-groupby_fst, Hgroups, fmap_app, fmap_cons. }
  split; [apply Hkeys, elem_of_app; right; left|]. split; [done|].
  intros k' Hk' Hno'.
  apply (first_failing_is_least
           (λ k, is_Some (quantile_mappers_ self !! k)) pre.*1 post.*1);
    [done..| |by apply Hkeys].
  rewrite Hno'. by intros [? ?].
Qed.

Lemma transform_by_group_names_smallest_unfitted_key_witness :
  ∃ k, _qm_transform_by_group identity_transform fresh
         (pd.groupby (grouper_ fresh) X_march) = Raise (KeyError k)
       ∧ k ∈ pd.group_keys (grouper_ fresh) X_march
       ∧ quantile_mappers_ fresh !! k = None
       ∧ ∀ k', k' ∈ pd.group_keys (grouper_ fresh) X_march →
               quantile_mappers_ fresh !! k' = None → (k ≤ k')%Z.
Proof.
  apply (transform_by_group_names_smallest_unfitted_key identity_transform
           fresh X_march (2%Z, Q_ 7)).
  - done.
  - right. left.
  - reflexivity.
Defined.

(** When some period key of the series has no entry in the climatology,
    [_remove_climatology] raises the [KeyError] of the smallest such
    key. *)
Theorem remove_climatology_names_smallest_missing_key
    {V : Type} `{!Arith V} {Kwargs Mapper : Type}
    (self : BcsdBase V Kwargs Mapper)
    (s climo : list (Z * V)) (r : Z * V) :
  r ∈ s → ¬ is_Ok (pd.loc climo (grouper_ self r.1)) →
  ∃ k, _remove_climatology self s climo = Raise (KeyError k)
       ∧ k ∈ pd.group_keys (grouper_ self) s
       ∧ ¬ is_Ok (pd.loc climo k)
       ∧ ∀ k', k' ∈ pd.group_keys (grouper_ self) s →
               ¬ is_Ok (pd.loc climo k') → (k ≤ k')%Z.
Proof.
  intros Hr Hnone.
  destruct (remove_climatology_uncovered self s climo r Hr Hnone)
    as (k & Hk & _ & _).
  unfold _remove_climatology in *.
  destruct (remove_climatology_loop _ climo) as [dfs|e] eqn:Hl.
  { rewrite result_bind_Ok in Hk. unfold pd.concat in Hk.
    destruct dfs; [done|]. rewrite result_bind_Ok in Hk. by case_decide. }
  rewrite result_bind_Raise in Hk. injection Hk as ->.
  apply remove_climatology_loop_first in Hl
    as (pre & kg & post & Hgroups & [= ->] & Hno & Hpre).
  pose proof (group_keys_sorted (grouper_ self) s) as Hsorted.
  rewrite <-groupby_fst, Hgroups, fmap_app, fmap_cons in Hsorted.
  exists kg.1. split; [done|].
  assert (∀ k', k' ∈ pd.group_keys (grouper_ self) s
                ↔ k' ∈ pre.*1 ++ kg.1 :: post.*1) as Hkeys.
  { intros k'. by rewrite <-groupby_fst, Hgroups, fmap_app, fmap_cons. }
  split; [apply Hkeys, elem_of_app; right; left|].
  split; [rewrite Hno; by intros [? ?]|].
  intros k' Hk' Hno'.
  by apply (first_failing_is_least
              (λ k, is_Ok (pd.loc climo k)) pre.*1 post.*1);
    [| | |apply Hkeys].
Qed.

Lemma remove_climatology_names_smallest_missing_key_witness :
  ∃ k, _remove_climatology fitted_T X_march y_climo_sample
       = Raise (KeyError k)
       ∧ k ∈ pd.group_keys (grouper_ fitted_T) X_march
       ∧ ¬ is_Ok (pd.loc y_climo_sample k)
       ∧ ∀ k', k' ∈ pd.group_keys (grouper_ fitted_T) X_march →
               ¬ is_Ok (pd.loc y_climo_sample k') → (k ≤ k')%Z.
Proof.
  apply (remove_climatology_names_smallest_missing_key fitted_T X_march
           y_climo_sample (2%Z, Q_ 7)).
  - right. left.
  - vm_compute. by intros [? ?].
Defined.

(** ** What [fit] leaves in the instance *)

Section FitState.

Context {V : Type} `{!Arith V} {Kwargs Mapper : Type}.
Variable qm_fit : Kwargs → list V → result Mapper.

Implicit Types (self : BcsdBase V Kwargs Mapper) (X y : list (Z * V)).

(** A loop that returns leaves the same instance for every order of the
    groups. *)
Lemma qm_fit_by_group_perm self
    (groups groups' : list (Z * list (Z * V))) :
  NoDup groups.*1 → groups ≡ₚ groups' →
  (_qm_fit_by_group qm_fit self groups).2 = Ok tt →
  _qm_fit_by_group qm_fit self groups = _qm_fit_by_group qm_fit self groups'.
Proof.
  intros Hnd Hperm Hok.
  assert (NoDup groups'.*1) as Hnd' by (by rewrite <-Hperm).
  assert ((_qm_fit_by_group qm_fit self groups').2 = Ok tt) as Hok'.
  { apply qm_fit_by_group_returns_iff. intros kg Hkg.
    apply (proj1 (qm_fit_by_group_returns_iff qm_fit self groups) Hok).
    by rewrite Hperm. }
  destruct (qm_fit_by_group_frame qm_fit self groups) as (Hg & Hk & Hx & Hy).
  destruct (qm_fit_by_group_frame qm_fit self groups')
    as (Hg' & Hk' & Hx' & Hy').
  apply injective_projections; [|congruence].
  apply BcsdBase_eq; [congruence..| |congruence|congruence].
  apply map_eq. intros k.
  destruct (decide (k ∈ groups.*1)) as [Hin|Hnin].
  - apply list_elem_of_fmap in Hin as ([k' grp] & -> & Hin). simpl.
    destruct (qm_fit_by_group_Ok_in qm_fit self groups k' grp Hok Hnd Hin)
      as (m & Hm & ->).
    destruct (qm_fit_by_group_Ok_in qm_fit self groups' k' grp Hok' Hnd')
      as (m' & Hm' & ->); [by rewrite <-Hperm|].
    congruence.
  - rewrite !qm_fit_by_group_notin; [done| |done]. by rewrite <-Hperm.
Qed.

Lemma temperature_fit_twice self X y :
  BcsdTemperature_fit qm_fit (BcsdTemperature_fit qm_fit self X y).1 X y
  = BcsdTemperature_fit qm_fit self X y.
Proof.
  destruct (temperature_fit_climatologies qm_fit self X y)
    as (Hg & Hk & Hx & Hy).
  unfold BcsdTemperature_fit at 1.
  set (first := (BcsdTemperature_fit qm_fit self X y).1) in *.
  assert (set_y_climo (pd.groupby_mean (pd.groupby (grouper_ first) y))
            (set_x_climo (pd.groupby_mean (pd.groupby (grouper_ first) X))
               first) = first) as Hsame.
  { apply BcsdBase_eq; simpl; by rewrite ?Hg. }
  simpl. simpl in Hsame. rewrite Hsame, Hg.
  unfold first, BcsdTemperature_fit. simpl.
  rewrite qm_fit_by_group_again.
  - symmetry. apply surjective_pairing.
  - rewrite groupby_fst. apply NoDup_group_keys.
Qed.

Lemma precipitation_fit_eq self X (y : pandas_obj V) :
  BcsdPrecipitation_fit qm_fit self X y
  = let climo := pd.groupby_mean (pd.groupby (grouper_ self) (rows_of y)) in
    match pd.min_le_zero (match y with
                          | SeriesOf _ => SeriesOf climo
                          | FrameOf _ => FrameOf climo
                          end) with
    | Raise e => (set_y_climo climo self, Raise e)
    | Ok true =>
        (set_y_climo climo self,
         Raise (ValueError "Invalid value in target climatology"))
    | Ok false =>
        _qm_fit_by_group qm_fit (set_y_climo climo self)
          (pd.groupby (grouper_ self) (rows_of y))
    end.
Proof. reflexivity. Qed.

Lemma precipitation_fit_twice self X (y : pandas_obj V) :
  BcsdPrecipitation_fit qm_fit (BcsdPrecipitation_fit qm_fit self X y).1 X y
  = BcsdPrecipitation_fit qm_fit self X y.
Proof.
  destruct (precipitation_fit_climatology qm_fit self X y)
    as (Hg & Hk & Hx & Hy).
  assert (set_y_climo
            (pd.groupby_mean (pd.groupby (grouper_ self) (rows_of y)))
            (BcsdPrecipitation_fit qm_fit self X y).1
          = (BcsdPrecipitation_fit qm_fit self X y).1) as Hsame.
  { apply BcsdBase_eq; simpl; by rewrite ?Hg. }
  rewrite (precipitation_fit_eq (BcsdPrecipitation_fit qm_fit self X y).1).
  cbv zeta. rewrite Hg, Hsame.
  rewrite (precipitation_fit_eq self). cbv zeta.
  destruct (pd.min_le_zero _) as [[|]|e]; simpl; [done| |done].
  rewrite qm_fit_by_group_again.
  - symmetry. apply surjective_pairing.
  - rewrite groupby_fst. apply NoDup_group_keys.
Qed.

End FitState.

(** Fitting twice on the same training pair is fitting once: the second
    call of [BcsdTemperature.fit] or [BcsdPrecipitation.fit] with the same
    arguments leaves the instance as the first call left it and has the
    same outcome. *)
Theorem fit_twice_same_pair {V : Type} `{!Arith V} {Kwargs Mapper : Type}
    (qm_fit : Kwargs → list V → result Mapper)
    (self : BcsdBase V Kwargs Mapper) (X y : list (Z * V))
    (target : pandas_obj V) :
  BcsdTemperature_fit qm_fit (BcsdTemperature_fit qm_fit self X y).1 X y
  = BcsdTemperature_fit qm_fit self X y
  ∧ BcsdPrecipitation_fit qm_fit
      (BcsdPrecipitation_fit qm_fit self X target).1 X target
    = BcsdPrecipitation_fit qm_fit self X target.
Proof.
  split; [apply temperature_fit_twice|apply precipitation_fit_twice].
Qed.

(** After a [fit] that returned on an instance straight from [__init__]
    with a function as [time_grouper], the dictionary of mappers holds
    exactly the period keys of the target [y], each with the mapper fitted
    on the values of that group in the row order of [y]; the training
    input has no part in it. *)
Theorem first_fit_mappers_are_target_groups {V : Type} `{!Arith V}
    {Kwargs Mapper : Type}
    (qm_fit : Kwargs → list V → result Mapper)
    (pd_Grouper : string → Z → Z) (f : Z → Z) (kw : Kwargs)
    (X y : list (Z * V)) :
  let self := __init__ V Mapper pd_Grouper (GrouperFunc f) kw in
  let fitted := (BcsdTemperature_fit qm_fit self X y).1 in
  (BcsdTemperature_fit qm_fit self X y).2 = Ok tt →
  dom (quantile_mappers_ fitted) = list_to_set (pd.group_keys f y)
  ∧ (∀ k m, quantile_mappers_ fitted !! k = Some m ↔
            k ∈ pd.group_keys f y
            ∧ qm_fit kw (values (pd.get_group f y k)) = Ok m)
  ∧ ((BcsdPrecipitation_fit qm_fit self X (SeriesOf y)).2 = Ok tt →
     quantile_mappers_ (BcsdPrecipitation_fit qm_fit self X (SeriesOf y)).1
     = quantile_mappers_ fitted).
Proof.
  intros self fitted Hok.
  pose proof (λ k, temperature_fit_mappers qm_fit self X y k Hok) as Hm.
  simpl in Hm. fold fitted in Hm.
  assert (∀ k m, quantile_mappers_ fitted !! k = Some m ↔
                 k ∈ pd.group_keys f y
                 ∧ qm_fit kw (values (pd.get_group f y k)) = Ok m) as Hlook.
  { intros k m. destruct (Hm k) as [Hin Hout].
    destruct (decide (k ∈ pd.group_keys f y)) as [Hk|Hk].
    - destruct (Hin Hk) as (m' & Hm' & ->). split.
      + intros [= <-]. done.
      + intros [_ Hfit]. congruence.
    - rewrite (Hout Hk). split; [done|by intros [? _]]. }
  split; [|split; [done|]].
  - apply set_eq. intros k. rewrite elem_of_dom, elem_of_list_to_set.
    split.
    + intros [m Hk%Hlook]. by destruct Hk.
    + intros Hk. destruct (Hm k) as [Hin _].
      destruct (Hin Hk) as (m & _ & ->). by exists m.
  - intros Hokp.
    pose proof (λ k, precipitation_fit_mappers qm_fit self X (SeriesOf y)
                       k Hokp) as Hp.
    simpl in Hp.
    apply map_eq. intros k. destruct (Hp k) as [Hpin Hpout].
    destruct (Hm k) as [Hin Hout].
    destruct (decide (k ∈ pd.group_keys f y)) as [Hk|Hk].
    + destruct (Hpin Hk) as (m & Hfit & ->).
      destruct (Hin Hk) as (m' & Hfit' & ->). congruence.
    + by rewrite (Hpout Hk), (Hout Hk).
Qed.

Lemma first_fit_mappers_are_target_groups_witness :
  dom (quantile_mappers_ fitted_T)
  = list_to_set (pd.group_keys month_of_year y_sample).
Proof.
  apply (first_fit_mappers_are_target_groups identity_fit no_freq
           month_of_year tt X_sample y_sample).
  reflexivity.
Defined.

(** The order in which the groups reach [_qm_fit_by_group] does not
    matter when the loop returns: for groups with distinct keys, any
    rearrangement leaves the same instance. *)
Theorem qm_fit_by_group_order_irrelevant {V : Type} `{!Arith V}
    {Kwargs Mapper : Type}
    (qm_fit : Kwargs → list V → result Mapper)
    (self : BcsdBase V Kwargs Mapper)
    (groups groups' : list (Z * list (Z * V))) :
  NoDup groups.*1 → groups ≡ₚ groups' →
  (_qm_fit_by_group qm_fit self groups).2 = Ok tt →
  _qm_fit_by_group qm_fit self groups = _qm_fit_by_group qm_fit self groups'.
Proof. apply qm_fit_by_group_perm. Qed.

Lemma qm_fit_by_group_order_irrelevant_witness :
  _qm_fit_by_group identity_fit fresh (pd.groupby month_of_year y_sample)
  = _qm_fit_by_group identity_fit fresh
      (reverse (pd.groupby month_of_year y_sample)).
Proof.
  apply (qm_fit_by_group_order_irrelevant identity_fit fresh).
  - rewrite groupby_fst. apply NoDup_group_keys.
  - by rewrite reverse_Permutation.
  - reflexivity.
Defined.

(** ** Where each mapped value goes *)

Section Reassembly.

Context {V : Type} `{!Arith V} {Kwargs Mapper : Type}.
Variable qm_transform : Mapper → list V → list V.
Hypothesis qm_transform_length :
  ∀ m d, length (qm_transform m d) = length d.

Implicit Types (self : BcsdBase V Kwargs Mapper) (s : list (Z * V)).

(** The frames the loop appends, and the series put together from them. *)
Lemma qm_transform_by_group_frames self s :
  wf_series s → s ≠ [] → all_fitted self s →
  ∃ dfs,
    Forall2 (λ (kg : Z * list (Z * V)) (df : list (Z * V)),
               ∃ m, quantile_mappers_ self !! kg.1 = Some m
                    ∧ df = zip (index kg.2) (qm_transform m (values kg.2)))
            (pd.groupby (grouper_ self) s) dfs
    ∧ _qm_transform_by_group qm_transform self
        (pd.groupby (grouper_ self) s) = Ok (pd.sort_index (mjoin dfs))
    ∧ index (pd.sort_index (mjoin dfs)) = index s.
Proof.
  intros Hwf Hne Hfit. unfold _qm_transform_by_group.
  destruct (qm_transform_loop_Ok qm_transform qm_transform_length self
              (pd.groupby (grouper_ self) s)) as (dfs & -> & Hall2).
  { intros kg Hkg. destruct (groupby_key_elem _ _ _ Hkg) as (r & Hr & <-).
    by apply Hfit. }
  exists dfs. split; [done|].
  rewrite result_bind_Ok, concat_nonempty.
  2:{ intros ->. apply Forall2_nil_inv_r in Hall2.
      by apply groupby_nonempty in Hall2. }
  split; [done|].
  apply sort_index_index; [|done].
  rewrite (frames_index (pd.groupby (grouper_ self) s)).
  - unfold index. by rewrite groupby_partition.
  - eapply Forall2_impl; [exact Hall2|].
    intros kg df (m & _ & ->). unfold index. apply fst_zip.
    rewrite qm_transform_length. unfold values. by rewrite !length_fmap.
Qed.

End Reassembly.

(** [_qm_transform_by_group] hands every sample the value its own group's
    mapper produced for it: the sample at row [i], which is the [j]-th of
    its period group, comes back at row [i] with the [j]-th value of the
    transform of that group's values -- values never cross groups or
    change place.  ([transform] returns as many values as it is given.) *)
Theorem transform_by_group_value_at_row {V : Type} `{!Arith V}
    {Kwargs Mapper : Type}
    (qm_transform : Mapper → list V → list V)
    (self : BcsdBase V Kwargs Mapper) (S : list (Z * V))
    (i : nat) (t : Z) (v : V) :
  (∀ m d, length (qm_transform m d) = length d) →
  wf_series S → all_fitted self S → S !! i = Some (t, v) →
  let g := grouper_ self in
  let group := pd.get_group g S (g t) in
  let j := length (pd.get_group g (take i S) (g t)) in
  ∃ out m w,
    _qm_transform_by_group qm_transform self (pd.groupby g S) = Ok out
    ∧ quantile_mappers_ self !! g t = Some m
    ∧ group !! j = Some (t, v)
    ∧ qm_transform m (values group) !! j = Some w
    ∧ out !! i = Some (t, w).
Proof.
  intros Hlen Hwf Hfit Hi g group j.
  assert (S ≠ []) as Hne by (intros ->; done).
  destruct (qm_transform_by_group_frames qm_transform Hlen self S Hwf Hne Hfit)
    as (dfs & Hall2 & Hout & Hidx).
  set (out := pd.sort_index (mjoin dfs)) in *.
  assert (group !! j = Some (t, v)) as Hj.
  { unfold group, j, pd.get_group. by apply filter_lookup_take. }
  assert ((g t, group) ∈ pd.groupby g S) as Hin.
  { unfold pd.groupby. apply list_elem_of_fmap. exists (g t). split; [done|].
    apply elem_of_group_keys. exists (t, v). split; [|done].
    by apply list_elem_of_lookup_2 in Hi. }
  apply list_elem_of_lookup in Hin as [p Hp].
  destruct (Forall2_lookup_l _ _ _ p _ Hall2 Hp) as (df & Hdf & m & Hm & ->).
  simpl in Hm.
  assert (is_Some (qm_transform m (values group) !! j)) as [w Hw].
  { apply lookup_lt_is_Some_2. rewrite Hlen. unfold values.
    rewrite length_fmap. by apply lookup_lt_Some in Hj. }
  exists out, m, w.
  split; [done|]. split; [done|]. split; [done|]. split; [done|].
  assert ((t, w) ∈ out) as Hmem.
  { unfold out, pd.sort_index. rewrite merge_sort_Permutation.
    apply list_elem_of_join.
    exists (zip (index group) (qm_transform m (values group))). split.
    - apply list_elem_of_lookup. exists j. apply lookup_zip_Some.
      split; [|exact Hw]. unfold index.
      apply (list_lookup_fmap_Some_2 fst group j (t, v) Hj).
    - by apply list_elem_of_lookup_2 in Hdf. }
  assert (index out !! i = Some t) as Hti.
  { rewrite Hidx. unfold index. by rewrite list_lookup_fmap, Hi. }
  unfold index in Hti.
  apply list_lookup_fmap_Some_1 in Hti as ([t' w'] & Ht & Hrow).
  simpl in Ht. subst t'. rewrite Hrow. f_equal.
  apply (NoDup_index_inj out); [|by apply list_elem_of_lookup_2 in Hrow|done..].
  rewrite Hidx. by apply wf_series_NoDup.
Qed.

Lemma transform_by_group_value_at_row_witness :
  ∃ out m w,
    _qm_transform_by_group doubling_transform fitted_T
      (pd.groupby (grouper_ fitted_T) X_sample) = Ok out
    ∧ quantile_mappers_ fitted_T !! grouper_ fitted_T 12%Z = Some m
    ∧ pd.get_group (grouper_ fitted_T) X_sample (grouper_ fitted_T 12%Z)
        !! length (pd.get_group (grouper_ fitted_T) (take 2 X_sample)
                     (grouper_ fitted_T 12%Z))
      = Some (12%Z, Q_ 3)
    ∧ doubling_transform m
        (values (pd.get_group (grouper_ fitted_T) X_sample
                   (grouper_ fitted_T 12%Z)))
        !! length (pd.get_group (grouper_ fitted_T) (take 2 X_sample)
                     (grouper_ fitted_T 12%Z))
      = Some w
    ∧ out !! 2%nat = Some (12%Z, w).
Proof.
  apply (transform_by_group_value_at_row doubling_transform fitted_T X_sample
           2 12%Z (Q_ 3)).
  - intros m d. unfold doubling_transform. by rewrite length_fmap.
  - exact wf_X_sample.
  - intros r Hr. vm_compute in Hr.
    repeat (apply elem_of_cons in Hr as [->|Hr]; [exists tt; by vm_compute|]).
    by apply elem_of_nil in Hr.
  - reflexivity.
Defined.

(** ** Inputs outside the training input *)

(** A fitted temperature model refuses every input that shows a period key
    its training input did not have: [predict] raises the [KeyError] of
    such a key at the shift step, before any mapper is looked up -- even
    when a mapper for that key is in the dictionary. *)
Theorem temperature_predict_key_outside_training {V : Type} `{!Arith V}
    {Kwargs Mapper : Type}
    (qm_fit : Kwargs → list V → result Mapper)
    (qm_transform : Mapper → list V → list V)
    (self : BcsdBase V Kwargs Mapper) (X_train y X : list (Z * V))
    (r : Z * V) :
  wf_series X → r ∈ X →
  grouper_ self r.1 ∉ pd.group_keys (grouper_ self) X_train →
  ∃ k, BcsdTemperature_predict qm_transform
         (BcsdTemperature_fit qm_fit self X_train y).1 X = Raise (KeyError k)
       ∧ k ∈ pd.group_keys (grouper_ self) X
       ∧ k ∉ pd.group_keys (grouper_ self) X_train.
Proof.
  intros Hwf Hr Hout.
  destruct (temperature_fit_climatologies qm_fit self X_train y)
    as (Hg & _ & Hx & _).
  set (fitted := (BcsdTemperature_fit qm_fit self X_train y).1) in *.
  clearbody fitted.
  unfold BcsdTemperature_predict, ensure_samples_features.
  rewrite Hx. simpl getattr. rewrite result_bind_Ok.
  pose proof (groupby_apply_rolling_index (grouper_ fitted) X Hwf) as HR.
  set (R := pd.groupby_apply (grouper_ fitted) rolling_func X) in *.
  assert (r.1 ∈ index R) as (r' & Hr' & Heq)%elem_of_index.
  { rewrite HR. apply elem_of_index. by exists r. }
  destruct (remove_climatology_uncovered fitted R
              (pd.groupby_mean (pd.groupby (grouper_ self) X_train)) r' Hr')
    as (k & -> & Hk & Hloc).
  { rewrite Heq, Hg, groupby_mean_keyed, loc_keyed_notin by done.
    by intros [? ?]. }
  exists k. split; [done|]. rewrite Hg in Hk. split.
  - rewrite <-(group_keys_index (grouper_ self) R X HR).
    by apply elem_of_group_keys.
  - intros Hin. by rewrite (loc_groupby_mean _ _ _ Hin) in Hloc.
Qed.

Lemma temperature_predict_key_outside_training_witness :
  ∃ k, BcsdTemperature_predict identity_transform refitted_T X_january
       = Raise (KeyError k)
       ∧ k ∈ pd.group_keys (grouper_ fitted_T) X_january
       ∧ k ∉ pd.group_keys (grouper_ fitted_T) X_march.
Proof.
  apply (temperature_predict_key_outside_training identity_fit
           identity_transform fitted_T X_march X_march X_january (0%Z, Q_ 5)).
  - unfold wf_series. vm_compute. repeat constructor.
  - left.
  - vm_compute. intros Hin.
    apply elem_of_cons in Hin as [?|Hin]; [done|].
    by apply list_elem_of_singleton in Hin.
Defined.
(** ** Inputs that are not in time order *)

Section AnyOrder.

Context {V : Type} `{!Arith V} {Kwargs Mapper : Type}.
Variable qm_transform : Mapper → list V → list V.
Hypothesis qm_transform_length :
  ∀ m d, length (qm_transform m d) = length d.

Implicit Types (self : BcsdBase V Kwargs Mapper) (s climo : list (Z * V)).

Lemma sort_index_sorted (l : list (Z * V)) :
  StronglySorted Z.le (index (pd.sort_index l)).
Proof.
  unfold index, pd.sort_index.
  apply (StronglySorted_fmap fst pd.index_le); [done|].
  apply StronglySorted_merge_sort.
  - intros x y z. unfold pd.index_le. lia.
  - intros x y. unfold pd.index_le. lia.
Qed.

Lemma remove_climatology_loop_lengths
    (groups : list (Z * list (Z * V))) climo (dfs : list (list (Z * V))) :
  remove_climatology_loop groups climo = Ok dfs →
  length (mjoin dfs) = length (mjoin groups.*2).
Proof.
  revert dfs. induction groups as [|[k grp] groups IH]; intros dfs.
  { by intros [= <-]. }
  simpl. destruct (pd.loc climo k) as [c|]; [|done].
  rewrite result_bind_Ok.
  destruct (remove_climatology_loop groups climo) as [dfs'|]; [|done].
  rewrite result_bind_Ok. intros [= <-]. simpl.
  rewrite !length_app, (IH dfs' eq_refl).
  unfold pd.sub_scalar. by rewrite length_fmap.
Qed.

End AnyOrder.

(** The shape assertion of [_remove_climatology] never fires: whatever the
    series and the climatology, the call does not raise
    [AssertionError]. *)
Theorem remove_climatology_assertion_holds {V : Type} `{!Arith V}
    {Kwargs Mapper : Type}
    (self : BcsdBase V Kwargs Mapper) (s climo : list (Z * V)) :
  _remove_climatology self s climo ≠ Raise AssertionError.
Proof.
  unfold _remove_climatology.
  destruct (remove_climatology_loop _ climo) as [dfs|e] eqn:Hl.
  - rewrite result_bind_Ok. unfold pd.concat.
    destruct dfs as [|df dfs]; [done|]. rewrite result_bind_Ok.
    rewrite decide_True; [done|].
    rewrite sort_index_length, (remove_climatology_loop_lengths _ _ _ Hl).
    by rewrite groupby_partition.
  - rewrite result_bind_Raise.
    apply remove_climatology_loop_Raise in Hl as (kg & _ & -> & _). done.
Qed.

(** Both helpers put their result in time order whatever the order of the
    input: on a non-empty series, sorted or not, whose period keys are all
    known, [_qm_transform_by_group] and [_remove_climatology] return a
    series whose timestamps are those of the input, rearranged in
    ascending order.  ([transform] returns as many values as it is
    given.) *)
Theorem helpers_return_in_time_order {V : Type} `{!Arith V}
    {Kwargs Mapper : Type}
    (qm_transform : Mapper → list V → list V)
    (self : BcsdBase V Kwargs Mapper) (s climo : list (Z * V)) :
  (∀ m d, length (qm_transform m d) = length d) →
  s ≠ [] →
  (all_fitted self s →
   ∃ out, _qm_transform_by_group qm_transform self
            (pd.groupby (grouper_ self) s) = Ok out
          ∧ index out ≡ₚ index s
          ∧ StronglySorted Z.le (index out))
  ∧ (covers (grouper_ self) climo s →
     ∃ out, _remove_climatology self s climo = Ok out
            ∧ out ≡ₚ anomaly (grouper_ self) climo <$> s
            ∧ StronglySorted Z.le (index out)).
Proof.
  intros Hlen Hne. split.
  - intros Hfit. unfold _qm_transform_by_group.
    destruct (qm_transform_loop_Ok qm_transform Hlen self
                (pd.groupby (grouper_ self) s)) as (dfs & -> & Hall2).
    { intros kg Hkg. destruct (groupby_key_elem _ _ _ Hkg) as (r & Hr & <-).
      by apply Hfit. }
    rewrite result_bind_Ok, concat_nonempty.
    2:{ intros ->. apply Forall2_nil_inv_r in Hall2.
        by apply groupby_nonempty in Hall2. }
    rewrite result_bind_Ok. eexists. split; [done|].
    split; [|apply sort_index_sorted].
    unfold index at 1, pd.sort_index. rewrite merge_sort_Permutation.
    fold (index (mjoin dfs)).
    rewrite (frames_index (pd.groupby (grouper_ self) s)).
    + unfold index. by rewrite groupby_partition.
    + eapply Forall2_impl; [exact Hall2|].
      intros kg df (m & _ & ->). unfold index. apply fst_zip.
      rewrite Hlen. unfold values. by rewrite !length_fmap.
  - intros Hcov. unfold _remove_climatology.
    rewrite (remove_climatology_loop_Ok (grouper_ self) s).
    2:{ intros kg Hkg. split; [by apply groupby_keys|].
        destruct (groupby_key_elem _ _ _ Hkg) as (r & Hr & <-).
        by apply Hcov. }
    rewrite result_bind_Ok, concat_nonempty.
    2:{ intros Hnil%fmap_nil_inv. by apply groupby_nonempty in Hnil. }
    rewrite result_bind_Ok, join_fmap_groups.
    rewrite decide_True.
    2:{ by rewrite sort_index_length, length_fmap, groupby_partition. }
    eexists. split; [done|]. split; [|apply sort_index_sorted].
    unfold pd.sort_index. rewrite merge_sort_Permutation.
    by rewrite groupby_partition.
Qed.

Lemma helpers_return_in_time_order_witness :
  ∃ out, _remove_climatology fitted_T (reverse X_sample) y_climo_sample = Ok out
         ∧ out ≡ₚ anomaly (grouper_ fitted_T) y_climo_sample
                    <$> reverse X_sample
         ∧ StronglySorted Z.le (index out).
Proof.
  apply (helpers_return_in_time_order identity_transform fitted_T
           (reverse X_sample) y_climo_sample).
  - done.
  - discriminate.
  - intros r Hr. vm_compute in Hr.
    repeat (apply elem_of_cons in Hr as [->|Hr]; [by eexists|]).
    by apply elem_of_nil in Hr.
Defined.
